(** * ssl_utils.c: bounded-buffer extraction helpers over certificates

    A shallow embedding of [src/ssl_utils.c] (HAProxy).  C integers are
    carried as [Z] with their wrap-around written out, bytes are [Z]
    values, C strings are [string]s, and the caller-owned output chunk is
    a record whose storage is a total map from byte offsets to bytes, so
    that a store beyond the capacity of the chunk stays observable. *)

From Stdlib Require Import ZArith Bool Ascii String List Lia.
From Stdlib Require Import DecimalString.
Import ListNotations.

Open Scope Z_scope.

(** ** Machine integers *)

Definition INT_MAX : Z := 2147483647.
Definition UINT_MOD : Z := 2 ^ 32.
Definition SIZE_MOD : Z := 2 ^ 64.
Definition LONG_MAX : Z := 2 ^ 63 - 1.
Definition LONG_MIN : Z := - 2 ^ 63.

(** Conversion of a C integer to [unsigned int] and to [size_t]. *)
Definition to_uint (z : Z) : Z := z mod UINT_MOD.
Definition to_size_t (z : Z) : Z := z mod SIZE_MOD.

(** Conversion of a [size_t] to [int]: the low 32 bits, read as a two's
    complement number. *)
Definition to_int (z : Z) : Z :=
  let r := z mod UINT_MOD in
  if r <=? INT_MAX then r else r - UINT_MOD.

(** [size_t] subtraction and addition. *)
Definition size_sub (a b : Z) : Z := (a - b) mod SIZE_MOD.
Definition size_add (a b : Z) : Z := (a + b) mod SIZE_MOD.

(** ** The output chunk *)

(** Modelled from the spec: [struct buffer] is declared in
    [haproxy/buf-t.h], which is not among the sources.  The spec gives it
    as [{ area: mutable byte region, capacity: size, length: size }]; the
    two counters have the unsigned [size_t] type, so their arithmetic
    wraps modulo [SIZE_MOD].  [area] maps a byte offset from the start of
    the region to the byte stored there; offsets at or above [size] are
    the memory adjacent to the chunk. *)
Record buffer : Type := mkbuf {
  size : Z;
  area : Z -> Z;
  data : Z
}.

(** The assignment [b->data = d]. *)
Definition set_data (b : buffer) (d : Z) : buffer :=
  mkbuf (size b) (area b) d.

(** [memcpy(dst + off, src, n)] on the storage map. *)
Definition memcpy (m : Z -> Z) (off : Z) (src : list Z) (n : Z) : Z -> Z :=
  fun i =>
    if (off <=? i) && (i <? off + n)
    then nth (Z.to_nat (i - off)) src 0
    else m i.

(** A single byte store [dst[off] = v]. *)
Definition store (m : Z -> Z) (off v : Z) : Z -> Z :=
  fun i => if i =? off then v else m i.

(** The bytes a reader of the chunk sees: offsets [0 .. data). *)
Definition chunk_bytes (b : buffer) : list Z :=
  map (fun i => area b (Z.of_nat i)) (seq 0 (Z.to_nat (data b))).

(** The bounded-buffer invariant of the data model. *)
Definition buffer_ok (b : buffer) : Prop :=
  0 <= data b /\ data b <= size b /\ size b < SIZE_MOD.

Definition zero_area : Z -> Z := fun _ => 0.

Definition empty_buffer (cap : Z) : buffer := mkbuf cap zero_area 0.

Definition len_of {A : Type} (l : list A) : Z := Z.of_nat (length l).

(** Bytes of a C string literal. *)
Definition bytes_of_string (s : string) : list Z :=
  map (fun c => Z.of_N (N_of_ascii c)) (list_ascii_of_string s).

(** ** GREASE filter: [exclude_tls_grease] *)

(** [input[i]] for an in-range index. *)
Definition input_at (input : list Z) (i : Z) : Z :=
  nth (Z.to_nat i) input 0.

(** The [while (ptr < len - 1)] loop.  The result is the value of [ptr]
    and the chunk when the loop is left, through its condition or through
    [break]; [None] when [fuel] iterations were not enough. *)
Fixpoint grease_loop (fuel : nat) (input : list Z) (len ptr : Z)
    (output : buffer) : option (Z * buffer) :=
  if ptr <? len - 1 then
    match fuel with
    | O => None
    | S fuel' =>
        let a := input_at input ptr in
        let b := input_at input (ptr + 1) in
        if negb (a =? b) || negb (Z.land a 0x0f =? 0x0a) then
          if data output <=? size_sub (size output) 2 then
            let m := memcpy (area output) (data output)
                            (skipn (Z.to_nat ptr) input) 2 in
            grease_loop fuel' input len (ptr + 2)
              (mkbuf (size output) m (size_add (data output) 2))
          else Some (ptr, output)
        else grease_loop fuel' input len (ptr + 2) output
    end
  else Some (ptr, output).

(** The trailing statement after the loop. *)
Definition grease_tail (input : list Z) (len ptr : Z) (output : buffer)
    : buffer :=
  if (0 <? size_sub (size output) (data output)) && (0 <? len - ptr) then
    mkbuf (size output)
          (store (area output) (data output) (input_at input ptr))
          (size_add (data output) 1)
  else output.

(** [exclude_tls_grease(input, len, output)]; the array and its length
    are one list. *)
Definition exclude_tls_grease (input : list Z) (output : buffer)
    : option buffer :=
  let len := len_of input in
  match grease_loop (length input) input len 0 output with
  | Some (ptr, o) => Some (grease_tail input len ptr o)
  | None => None
  end.

(** The filter as the spec words it, on lists: drop each pair at an even
    offset whose two bytes are equal with low nibble [0xA], keep the other
    pairs and a final unpaired byte. *)
Fixpoint grease_spec (l : list Z) : list Z :=
  match l with
  | a :: b :: rest =>
      if (a =? b) && (Z.land a 0x0f =? 0x0a)
      then grease_spec rest
      else a :: b :: grease_spec rest
  | _ => l
  end.

(** ** Certificate objects *)

(** The certificate and its parts are owned by the cryptographic library;
    each object is carried as the values its accessors return. *)

(** [ASN1_STRING] (also [ASN1_INTEGER], [ASN1_TIME]). *)
Record ASN1_STRING : Type := mkasn1 {
  asn1_length : Z;
  asn1_type : Z;
  asn1_data : list Z
}.

Definition V_ASN1_UTCTIME : Z := 23.
Definition V_ASN1_GENERALIZEDTIME : Z := 24.

(** The length field agrees with the payload and is a valid [int]. *)
Definition asn1_ok (s : ASN1_STRING) : Prop :=
  asn1_length s = len_of (asn1_data s) /\ asn1_length s <= INT_MAX.

Record EVP_PKEY : Type := mkpkey {
  EVP_PKEY_base_id : Z;
  EVP_PKEY_bits : Z
}.

Definition EVP_PKEY_RSA : Z := 6.
Definition EVP_PKEY_DSA : Z := 116.
Definition EVP_PKEY_EC : Z := 408.

Definition TLSEXT_signature_anonymous : Z := 0.
Definition TLSEXT_signature_rsa : Z := 1.
Definition TLSEXT_signature_dsa : Z := 2.
Definition TLSEXT_signature_ecdsa : Z := 3.

(** [X509]: the public key, the serial number, and what [i2d_X509]
    yields for it: the value it returns and the DER bytes it emits. *)
Record X509 : Type := mkx509 {
  X509_get_pubkey : option EVP_PKEY;
  X509_get_serialNumber : option ASN1_STRING;
  i2d_X509_len : Z;
  i2d_X509_der : list Z
}.

(** [ASN1_OBJECT]: [OBJ_obj2nid], [OBJ_nid2sn] of that nid, and the text
    [i2t_ASN1_OBJECT] leaves in [tmp]. *)
Record ASN1_OBJECT : Type := mkobj {
  OBJ_obj2nid : Z;
  OBJ_nid2sn : option string;
  i2t_ASN1_OBJECT : string
}.

Definition NID_undef : Z := 0.

Record X509_NAME_ENTRY : Type := mkne {
  X509_NAME_ENTRY_get_object : ASN1_OBJECT;
  X509_NAME_ENTRY_get_data : ASN1_STRING
}.

Definition X509_NAME : Type := list X509_NAME_ENTRY.

Definition X509_NAME_entry_count (a : X509_NAME) : Z := len_of a.

Definition null_entry : X509_NAME_ENTRY :=
  mkne (mkobj NID_undef None EmptyString) (mkasn1 0 0 []).

Definition X509_NAME_get_entry (a : X509_NAME) (loc : Z) : X509_NAME_ENTRY :=
  nth (Z.to_nat loc) a null_entry.

(** The name under which an entry is matched and printed: the registered
    short name, else the textual object identifier. *)
Definition entry_name (obj : ASN1_OBJECT) : string :=
  let n := OBJ_obj2nid obj in
  if n =? NID_undef then i2t_ASN1_OBJECT obj
  else match OBJ_nid2sn obj with
       | Some s => s
       | None => i2t_ASN1_OBJECT obj
       end.

Definition strlen (s : string) : Z := Z.of_nat (String.length s).

(** ** Chunk helpers *)

Definition char_code (c : ascii) : Z := Z.of_N (N_of_ascii c).

(** A chunk holding exactly the bytes of [s]. *)
Definition chunk_of_string (s : string) : buffer :=
  mkbuf (strlen s) (memcpy zero_area 0 (bytes_of_string s) (strlen s))
        (strlen s).

Definition toupper (c : Z) : Z :=
  if (97 <=? c) && (c <=? 122) then c - 32 else c.

Fixpoint bytes_casecmp (l1 l2 : list Z) : Z :=
  match l1, l2 with
  | [], [] => 0
  | [], c2 :: _ => 0 - c2
  | c1 :: _, [] => c1
  | c1 :: r1, c2 :: r2 =>
      if c1 =? c2 then bytes_casecmp r1 r2
      else let d := toupper c1 - toupper c2 in
           if d =? 0 then bytes_casecmp r1 r2 else d
  end.

Fixpoint bytes_cmp (l1 l2 : list Z) : Z :=
  match l1, l2 with
  | [], [] => 0
  | [], c2 :: _ => 0 - c2
  | c1 :: _, [] => c1
  | c1 :: r1, c2 :: r2 =>
      if c1 =? c2 then bytes_cmp r1 r2 else c1 - c2
  end.

(** Modelled from the spec: [chunk_strcasecmp] is declared in
    [haproxy/chunk.h], which is not among the sources.  The filter chunk
    is "matched case-insensitively against each entry's short name"; the
    result is 0 exactly on such a match. *)
Definition chunk_strcasecmp (chk : buffer) (str : string) : Z :=
  bytes_casecmp (chunk_bytes chk) (bytes_of_string str).

(** Modelled from the spec: [chunk_strcmp] is declared in
    [haproxy/chunk.h], which is not among the sources.  It compares the
    chunk with a literal tag byte for byte ("only the literal tag
    rfc2253 is recognized"); the result is 0 exactly when they agree. *)
Definition chunk_strcmp (chk : buffer) (str : string) : Z :=
  bytes_cmp (chunk_bytes chk) (bytes_of_string str).

(** Decimal text of a C [int], as [%d] prints it. *)
Definition decimal (n : Z) : string :=
  NilZero.string_of_int (Z.to_int n).

(** Expansion of a format holding [%d] conversions of one argument. *)
Fixpoint format_d (fmt : string) (n : Z) : string :=
  match fmt with
  | String "%" (String "d" rest) => (decimal n ++ format_d rest n)%string
  | String c rest => String c (format_d rest n)
  | EmptyString => EmptyString
  end.

(** Modelled from the spec: [chunk_printf] is defined in [chunk.c], which
    is not among the sources.  It renders the text into the chunk from its
    start; "buffer too small for the rendered text" is a formatting
    failure, reported by a negative result with the length untouched.
    The text and its terminating NUL must fit. *)
Definition chunk_printf_model (chk : buffer) (fmt : string) (n : Z)
    : Z * buffer :=
  let txt := format_d fmt n in
  let ret := strlen txt in
  if size chk <=? ret then (-1, chk)
  else (ret, mkbuf (size chk)
                   (memcpy (area chk) 0 (bytes_of_string txt ++ [0]) (ret + 1))
                   ret).

(** ** Public-key algorithm summarizer: [cert_get_pkey_algo] *)

Section PkeyAlgo.

(** [chunk_printf] applied to a format with one [%d] argument. *)
Variable chunk_printf : buffer -> string -> Z -> Z * buffer.

Definition pkey_sig (crt : X509) : Z * Z :=
  match X509_get_pubkey crt with
  | Some pkey =>
      let bits := EVP_PKEY_bits pkey in
      let id := EVP_PKEY_base_id pkey in
      if id =? EVP_PKEY_RSA then (bits, TLSEXT_signature_rsa)
      else if id =? EVP_PKEY_EC then (bits, TLSEXT_signature_ecdsa)
      else if id =? EVP_PKEY_DSA then (bits, TLSEXT_signature_dsa)
      else (bits, TLSEXT_signature_anonymous)
  | None => (0, TLSEXT_signature_anonymous)
  end.

Definition pkey_result (r : Z * buffer) : Z * buffer :=
  let '(len, out') := r in
  if len <? 0 then (0, out') else (1, out').

Definition cert_get_pkey_algo (crt : X509) (out : buffer) : Z * buffer :=
  let '(bits, sig) := pkey_sig crt in
  if sig =? TLSEXT_signature_rsa then
    pkey_result (chunk_printf out "RSA%d" bits)
  else if sig =? TLSEXT_signature_ecdsa then
    pkey_result (chunk_printf out "EC%d" bits)
  else if sig =? TLSEXT_signature_dsa then
    pkey_result (chunk_printf out "DSA%d" bits)
  else (0, out).

End PkeyAlgo.

(** ** Scalar extractors *)

(** [ssl_sock_get_serial]: result and chunk after the call. *)
Definition ssl_sock_get_serial (crt : X509) (out : buffer) : Z * buffer :=
  match X509_get_serialNumber crt with
  | None => (0, out)
  | Some serial =>
      if size out <? to_size_t (asn1_length serial) then (-1, out)
      else (1, mkbuf (size out)
                     (memcpy (area out) 0 (asn1_data serial)
                             (asn1_length serial))
                     (to_size_t (asn1_length serial)))
  end.

(** [ssl_sock_crt2der]. *)
Definition ssl_sock_crt2der (crt : X509) (out : buffer) : Z * buffer :=
  let len := i2d_X509_len crt in
  if len <=? 0 then (1, out)
  else if size out <? to_size_t len then (-1, out)
  else (1, mkbuf (size out)
                 (memcpy (area out) 0 (i2d_X509_der crt) len)
                 (to_size_t len)).

(** [ssl_sock_get_time]. *)
Definition ssl_sock_get_time (tm : ASN1_STRING) (out : buffer) : Z * buffer :=
  if asn1_type tm =? V_ASN1_GENERALIZEDTIME then
    let gentm := tm in
    if asn1_length gentm <? 12 then (0, out)
    else if negb (nth 0 (asn1_data gentm) 0 =? 0x32)
            || negb (nth 1 (asn1_data gentm) 0 =? 0x30) then (0, out)
    else if size out <? to_size_t (asn1_length gentm - 2) then (-1, out)
    else (1, mkbuf (size out)
                   (memcpy (area out) 0 (skipn 2 (asn1_data gentm))
                           (asn1_length gentm - 2))
                   (to_size_t (asn1_length gentm - 2)))
  else if asn1_type tm =? V_ASN1_UTCTIME then
    let utctm := tm in
    if asn1_length utctm <? 10 then (0, out)
    else if 0x35 <=? nth 0 (asn1_data utctm) 0 then (0, out)
    else if size out <? to_size_t (asn1_length utctm) then (-1, out)
    else (1, mkbuf (size out)
                   (memcpy (area out) 0 (asn1_data utctm) (asn1_length utctm))
                   (to_size_t (asn1_length utctm)))
  else (0, out).

(** ** Distinguished name engine *)

(** The [for (i = 0; i < name_count; i++)] loop of
    [ssl_sock_get_dn_entry]; [todo] counts the iterations left. *)
Fixpoint dn_entry_loop (todo : nat) (a : X509_NAME) (entry : buffer)
    (pos name_count i cur : Z) (out : buffer) : Z * buffer :=
  match todo with
  | O => (0, out)
  | S todo' =>
      let j := if pos <? 0 then (name_count - 1) - i else i in
      let ne := X509_NAME_get_entry a j in
      let obj := X509_NAME_ENTRY_get_object ne in
      let data_ptr := asn1_data (X509_NAME_ENTRY_get_data ne) in
      let data_len := asn1_length (X509_NAME_ENTRY_get_data ne) in
      let s := entry_name obj in
      if negb (chunk_strcasecmp entry s =? 0) then
        dn_entry_loop todo' a entry pos name_count (i + 1) cur out
      else
        let cur := if pos <? 0 then cur - 1 else cur + 1 in
        if negb (cur =? pos) then
          dn_entry_loop todo' a entry pos name_count (i + 1) cur out
        else if size out <? to_size_t data_len then (-1, out)
        else (1, mkbuf (size out)
                       (memcpy (area out) 0 data_ptr data_len)
                       (to_size_t data_len))
  end.

Definition ssl_sock_get_dn_entry (a : X509_NAME) (entry : buffer) (pos : Z)
    (out : buffer) : Z * buffer :=
  let name_count := X509_NAME_entry_count a in
  dn_entry_loop (Z.to_nat name_count) a entry pos name_count 0 0
                (set_data out 0).

Section DnFormatted.

(** The library calls of [ssl_sock_get_dn_formatted]: whether
    [BIO_new] yields a sink, and the result of [X509_NAME_print_ex]
    with the bytes it leaves in the sink. *)
Variable BIO_new : bool.
Variable X509_NAME_print_ex : X509_NAME -> Z * list Z.

(** [BIO_read] from a memory sink holding [content], [dlen] being an
    [int]: at most [dlen]
    bytes, a non-positive result when nothing is read. *)
Definition BIO_read (content : list Z) (m : Z -> Z) (dlen : Z)
    : Z * (Z -> Z) :=
  let n := Z.min dlen (len_of content) in
  if n <=? 0 then (-1, m) else (n, memcpy m 0 content n).

Definition ssl_sock_get_dn_formatted (a : X509_NAME) (format : buffer)
    (out : buffer) : Z * buffer :=
  if chunk_strcmp format "rfc2253" =? 0 then
    if negb BIO_new then (0, out)
    else
      let '(rc, content) := X509_NAME_print_ex a in
      if rc <? 0 then (0, out)
      else
        let '(data_len, m) :=
          BIO_read content (area out) (to_int (size out)) in
        if data_len <=? 0 then (0, mkbuf (size out) m (data out))
        else (1, mkbuf (size out) m (to_size_t data_len))
  else (0, out).

End DnFormatted.

(** One iteration's writes of [ssl_sock_get_dn_oneline] at offset [p]. *)
Definition oneline_put (m : Z -> Z) (p : Z) (s : string) (data_ptr : list Z)
    (data_len : Z) : Z -> Z :=
  let ln := strlen s in
  let m := store m p 47 in
  let m := memcpy m (p + 1) (bytes_of_string s) ln in
  let m := store m (p + 1 + ln) 61 in
  memcpy m (p + 1 + ln + 1) data_ptr data_len.

(** The loop of [ssl_sock_get_dn_oneline]; the flag is [false] when the
    loop was left by [return -1]. *)
Fixpoint dn_oneline_loop (todo : nat) (a : X509_NAME) (i l p : Z)
    (out : buffer) : bool * buffer :=
  match todo with
  | O => (true, out)
  | S todo' =>
      let ne := X509_NAME_get_entry a i in
      let obj := X509_NAME_ENTRY_get_object ne in
      let data_ptr := asn1_data (X509_NAME_ENTRY_get_data ne) in
      let data_len := asn1_length (X509_NAME_ENTRY_get_data ne) in
      let s := entry_name obj in
      let ln := strlen s in
      let l := l + (1 + ln + 1 + data_len) in
      if size out <? to_size_t l then (false, out)
      else
        let out := mkbuf (size out)
                         (oneline_put (area out) p s data_ptr data_len)
                         (to_size_t l) in
        dn_oneline_loop todo' a (i + 1) l (p + 1 + ln + 1 + data_len) out
  end.

Definition ssl_sock_get_dn_oneline (a : X509_NAME) (out : buffer)
    : Z * buffer :=
  let name_count := X509_NAME_entry_count a in
  let '(completed, out') :=
    dn_oneline_loop (Z.to_nat name_count) a 0 0 0 (set_data out 0) in
  if completed then
    if data out' =? 0 then (0, out') else (1, out')
  else (-1, out').

(** The short name registered for the attribute of an entry, if there
    is one: the attribute is known to the library and has a short name. *)
Definition registered_short_name (obj : ASN1_OBJECT) : option string :=
  if OBJ_obj2nid obj =? NID_undef then None else OBJ_nid2sn obj.

(** The [shortName] of the data model: the registered short name, or the
    textual object identifier when no short name is registered. *)
Definition short_name (obj : ASN1_OBJECT) : string :=
  match registered_short_name obj with
  | Some sn => sn
  | None => i2t_ASN1_OBJECT obj
  end.

(** The oneline text as the spec words it: for each entry a slash, the
    short name, an equals sign and the raw value. *)
Definition oneline_entry (ne : X509_NAME_ENTRY) : list Z :=
  bytes_of_string "/"
  ++ bytes_of_string (short_name (X509_NAME_ENTRY_get_object ne))
  ++ bytes_of_string "="
  ++ asn1_data (X509_NAME_ENTRY_get_data ne).

Definition oneline_text (a : X509_NAME) : list Z :=
  concat (map oneline_entry a).

(** The number of leading entries whose running total stays within
    [cap], counting from a total of [l]. *)
Fixpoint oneline_fit (cap l : Z) (a : X509_NAME) : nat :=
  match a with
  | [] => O
  | ne :: rest =>
      let l' := l + len_of (oneline_entry ne) in
      if cap <? l' then O else S (oneline_fit cap l' rest)
  end.

(** ** Version string parser: [openssl_version_parser] *)

(** The character under the pointer [p], NUL at the end. *)
Definition peek (p : string) : Z :=
  match p with
  | EmptyString => 0
  | String c _ => char_code c
  end.

(** [p + n]. *)
Fixpoint advance (n : nat) (p : string) : string :=
  match n, p with
  | S n', String _ r => advance n' r
  | _, _ => p
  end.

Definition isspace (c : Z) : bool := (c =? 32) || ((9 <=? c) && (c <=? 13)).
Definition isdigit (c : Z) : bool := (48 <=? c) && (c <=? 57).

Fixpoint skip_space (p : string) : string :=
  match p with
  | String c r => if isspace (char_code c) then skip_space r else p
  | EmptyString => p
  end.

Fixpoint strtol_digits (p : string) (acc : Z) : Z * string :=
  match p with
  | String c r =>
      if isdigit (char_code c)
      then strtol_digits r (acc * 10 + (char_code c - 48))
      else (acc, p)
  | EmptyString => (acc, p)
  end.

Definition clamp_long (v : Z) : Z := Z.max LONG_MIN (Z.min LONG_MAX v).

(** The C library's [strtol(nptr, &end, 10)]: the value and [end]. *)
Definition strtol (nptr : string) : Z * string :=
  let p := skip_space nptr in
  let '(neg, q) :=
    if peek p =? 45 then (true, advance 1 p)
    else if peek p =? 43 then (false, advance 1 p)
    else (false, p) in
  if isdigit (peek q) then
    let '(v, e) := strtol_digits q 0 in
    (clamp_long (if neg then - v else v), e)
  else (0, nptr).

(** [strncmp(p, "beta", 4) == 0]. *)
Definition starts_with_beta (p : string) : bool := String.prefix "beta" p.

(** The [while] loop over the trailing letters, adding the value of
    each one to [patch]. *)
Fixpoint patch_letters (p : string) (patch : Z) : Z :=
  match p with
  | EmptyString => patch
  | String c r =>
      if char_code c =? 0 then patch
      else patch_letters r
             (to_uint (patch + (Z.land (char_code c) (Z.lnot 0x20) - 65)))
  end.

(** The packing at label [end]. *)
Definition numversion (major minor fix_ patch status : Z) : Z :=
  Z.lor (Z.lor (Z.lor (Z.lor
    (Z.shiftl (Z.land major 0xf) 28)
    (Z.shiftl (Z.land minor 0xff) 20))
    (Z.shiftl (Z.land fix_ 0xff) 12))
    (Z.shiftl (Z.land patch 0xff) 4))
    (Z.land status 0xf).

(** [openssl_version_parser]; [None] is the NULL pointer. *)
Definition openssl_version_parser (version : option string) : Z :=
  match version with
  | None => 0
  | Some p =>
      if peek p =? 0 then 0 else
      let '(v, e) := strtol p in
      let major := to_uint v in
      if negb (peek e =? 46) || (0xf <? major) then 0 else
      let p := advance 1 e in
      let '(v, e) := strtol p in
      let minor := to_uint v in
      if negb (peek e =? 46) || (0xff <? minor) then 0 else
      let p := advance 1 e in
      let '(v, e) := strtol p in
      let fix_ := to_uint v in
      if 0xff <? fix_ then 0 else
      let p := e in
      if peek p =? 0 then numversion major minor fix_ 0 0xf
      else if peek p =? 45 then
        let p := advance 1 p in
        if starts_with_beta p then
          let p := advance 4 p in
          let '(v, e) := strtol p in
          let status := to_uint v in
          if 14 <? status then 0
          else numversion major minor fix_ 0 status
        else numversion major minor fix_ 0 0
      else numversion major minor fix_ (patch_letters p 1) 0xf
  end.

(** The fields of a packed ordinal, layout
    [major:4 | minor:8 | fix:8 | patch:8 | status:4]. *)
Definition ver_major (n : Z) : Z := Z.land (Z.shiftr n 28) 0xf.
Definition ver_minor (n : Z) : Z := Z.land (Z.shiftr n 20) 0xff.
Definition ver_fix (n : Z) : Z := Z.land (Z.shiftr n 12) 0xff.
Definition ver_patch (n : Z) : Z := Z.land (Z.shiftr n 4) 0xff.
Definition ver_status (n : Z) : Z := Z.land n 0xf.

(** ** Sample inputs *)

Definition NID_commonName : Z := 13.
Definition NID_organizationName : Z := 17.
Definition V_ASN1_UTF8STRING : Z := 12.

(** An entry with a text value whose object has nid [nid], for which
    [OBJ_nid2sn] gives [sn] and [i2t_ASN1_OBJECT] the text [txt]. *)
Definition name_entry (nid : Z) (sn : option string) (txt : string)
    (v : string) : X509_NAME_ENTRY :=
  mkne (mkobj nid sn txt)
       (mkasn1 (strlen v) V_ASN1_UTF8STRING (bytes_of_string v)).

(** The distinguished name [(CN,"a"),(O,"b"),(CN,"c")]; the text of each
    object is its long name, not its short name. *)
Definition dn_abc : X509_NAME :=
  [name_entry NID_commonName (Some "CN"%string) "commonName" "a";
   name_entry NID_organizationName (Some "O"%string) "organizationName" "b";
   name_entry NID_commonName (Some "CN"%string) "commonName" "c"].

(** A name with one registered attribute and two the library has no
    short name for: an unknown object, for which [OBJ_obj2nid] gives
    [NID_undef] (whose own short name is [UNDEF]), and a known one for
    which [OBJ_nid2sn] gives NULL. *)
Definition dn_mixed : X509_NAME :=
  [name_entry NID_commonName (Some "CN"%string) "commonName" "a";
   name_entry NID_undef (Some "UNDEF"%string) "1.2.3.4" "x";
   name_entry 1000 None "1.2.3.5" "y"].

(** A certificate holding an RSA key of 2048 bits and no serial number,
    whose DER sizing call fails. *)
Definition crt_rsa2048 : X509 :=
  mkx509 (Some (mkpkey EVP_PKEY_RSA 2048)) None (-1) [].

(** Result code together with the bytes a reader sees afterwards. *)
Definition outcome (r : Z * buffer) : Z * list Z :=
  (fst r, chunk_bytes (snd r)).

(** ** Predicates used in the statements *)

(** A generalized time the extractor accepts: at least 12 bytes, the
    first two being the text [20]. *)
Definition gentime_accepted (tm : ASN1_STRING) : Prop :=
  asn1_type tm = V_ASN1_GENERALIZEDTIME /\
  12 <= asn1_length tm /\
  firstn 2 (asn1_data tm) = bytes_of_string "20".

(** A UTC time the extractor accepts: at least 10 bytes, the first one
    below the character [5]. *)
Definition utctime_accepted (tm : ASN1_STRING) : Prop :=
  asn1_type tm = V_ASN1_UTCTIME /\
  10 <= asn1_length tm /\
  nth 0 (asn1_data tm) 0 < char_code "5".

(** The length field of an entry's value agrees with its payload. *)
Definition entry_ok (ne : X509_NAME_ENTRY) : Prop :=
  asn1_length (X509_NAME_ENTRY_get_data ne)
  = len_of (asn1_data (X509_NAME_ENTRY_get_data ne)).

(** A pair the filter drops. *)
Definition is_grease (a b : Z) : bool := (a =? b) && (Z.land a 0x0f =? 0x0a).

(** Lists made of pairs none of which the filter drops. *)
Fixpoint pairs_kept (l : list Z) : Prop :=
  match l with
  | [] => True
  | a :: b :: rest => is_grease a b = false /\ pairs_kept rest
  | _ => False
  end.

(** Lists made of pairs all of which the filter drops. *)
Fixpoint pairs_grease (l : list Z) : Prop :=
  match l with
  | [] => True
  | a :: b :: rest => is_grease a b = true /\ pairs_grease rest
  | _ => False
  end.

(** The state of the filter after reading [ptr] bytes, relative to the
    chunk [out0] it was started on: the capacity is the same, the length
    has grown by at most [ptr], stays within a capacity of 2 or more, only
    offsets from the old length up to the new one were stored to, and the
    chunk reads as before followed by pairs that are kept. *)
Definition grease_inv (out0 : buffer) (ptr : Z) (o : buffer) : Prop :=
  size o = size out0 /\
  data out0 <= data o /\
  data o <= data out0 + ptr /\
  (2 <= size out0 -> data o <= size out0) /\
  (forall i, i < data out0 \/ data o <= i -> area o i = area out0 i) /\
  exists l, chunk_bytes o = chunk_bytes out0 ++ l /\ pairs_kept l.

(** ** The entry locator at list level *)

(** Whether the filter chunk matches the name of an entry. *)
Definition dn_entry_matches (entry : buffer) (ne : X509_NAME_ENTRY) : bool :=
  chunk_strcasecmp entry (entry_name (X509_NAME_ENTRY_get_object ne)) =? 0.

(** The entries that match, in the order of the name. *)
Definition dn_matches (entry : buffer) (a : X509_NAME) : X509_NAME :=
  filter (dn_entry_matches entry) a.

(** The entry a position designates: the [pos]-th match from the start
    for a positive position, the [-pos]-th match from the end for a
    negative one, none for 0. *)
Definition dn_select (a : X509_NAME) (entry : buffer) (pos : Z)
    : option X509_NAME_ENTRY :=
  if 0 <? pos then nth_error (dn_matches entry a) (Z.to_nat (pos - 1))
  else if pos <? 0 then
    nth_error (rev (dn_matches entry a)) (Z.to_nat (- pos - 1))
  else None.

(** Copying the value of the selected entry into a chunk. *)
Definition dn_deliver (ne : X509_NAME_ENTRY) (out : buffer) : Z * buffer :=
  let v := X509_NAME_ENTRY_get_data ne in
  if size out <? to_size_t (asn1_length v) then (-1, out)
  else (1, mkbuf (size out)
                 (memcpy (area out) 0 (asn1_data v) (asn1_length v))
                 (to_size_t (asn1_length v))).

(** The order in which the loop visits the entries. *)
Definition dn_view (pos : Z) (a : X509_NAME) : X509_NAME :=
  if pos <? 0 then rev a else a.

(** The loop of the locator over the entries still to visit. *)
Fixpoint dn_entry_scan (entry : buffer) (pos : Z) (rest : X509_NAME)
    (cur : Z) (out : buffer) : Z * buffer :=
  match rest with
  | [] => (0, out)
  | ne :: rest' =>
      if dn_entry_matches entry ne then
        let cur := if pos <? 0 then cur - 1 else cur + 1 in
        if cur =? pos then dn_deliver ne out
        else dn_entry_scan entry pos rest' cur out
      else dn_entry_scan entry pos rest' cur out
  end.

(** ** Peer certificate resolver: [ssl_sock_get_peer_certificate] *)

(** A certificate object is named by a handle; the library keeps a
    reference count for each.  A session is carried as what its two
    accessors return: the peer certificate, and the pointers stored in
    its [ex_data] slots. *)
Record SSL : Type := mkssl {
  ssl_peer_cert : option Z;
  ssl_ex_data : Z -> option Z
}.

(** [X509_up_ref]: one more reference to [cert]. *)
Definition X509_up_ref (refs : Z -> Z) (cert : Z) : Z -> Z :=
  fun h => if h =? cert then refs h + 1 else refs h.

(** [SSL_get_peer_certificate]: the library returns the peer certificate
    with its reference count raised by one, or NULL. *)
Definition SSL_get_peer_certificate (ssl : SSL) (refs : Z -> Z)
    : option Z * (Z -> Z) :=
  match ssl_peer_cert ssl with
  | Some c => (Some c, X509_up_ref refs c)
  | None => (None, refs)
  end.

Definition SSL_get_ex_data (ssl : SSL) (idx : Z) : option Z :=
  ssl_ex_data ssl idx.

(** [ssl_sock_get_peer_certificate]: the certificate returned ([None]
    for NULL) and the reference counts after the call. *)
Definition ssl_sock_get_peer_certificate (ssl_client_crt_ref_index : Z)
    (ssl : SSL) (refs : Z -> Z) : option Z * (Z -> Z) :=
  let '(cert, refs) := SSL_get_peer_certificate ssl refs in
  match cert with
  | Some c => (Some c, refs)
  | None =>
      let cert := SSL_get_ex_data ssl ssl_client_crt_ref_index in
      match cert with
      | Some c => (Some c, X509_up_ref refs c)
      | None => (None, refs)
      end
  end.

(** ** Version strings at the level of their grammar *)

(** Strings made of decimal digits only. *)
Fixpoint all_digits (s : string) : bool :=
  match s with
  | EmptyString => true
  | String c r => isdigit (char_code c) && all_digits r
  end.

(** A decimal numeral: at least one digit, digits only. *)
Definition numeral (s : string) : Prop :=
  s <> EmptyString /\ all_digits s = true.

(** The value of a numeral read from left to right, starting from
    [acc]. *)
Fixpoint decimal_value (s : string) (acc : Z) : Z :=
  match s with
  | EmptyString => acc
  | String c r => decimal_value r (acc * 10 + (char_code c - 48))
  end.

Definition is_letter (c : Z) : bool :=
  ((65 <=? c) && (c <=? 90)) || ((97 <=? c) && (c <=? 122)).

(** Strings made of ASCII letters only. *)
Fixpoint all_letters (s : string) : bool :=
  match s with
  | EmptyString => true
  | String c r => is_letter (char_code c) && all_letters r
  end.

(** The sum over the letters of their distance from [A], case folded. *)
Fixpoint letters_sum (s : string) : Z :=
  match s with
  | EmptyString => 0
  | String c r => (toupper (char_code c) - 65) + letters_sum r
  end.

(** The number of dots in a string. *)
Fixpoint count_dots (s : string) : nat :=
  match s with
  | EmptyString => O
  | String c r =>
      if char_code c =? 46 then S (count_dots r) else count_dots r
  end.

(** Lexicographic order on the five fields of a version. *)
Definition version_lt (a b : Z * Z * Z * Z * Z) : Prop :=
  let '(M1, m1, f1, p1, s1) := a in
  let '(M2, m2, f2, p2, s2) := b in
  M1 < M2 \/ (M1 = M2 /\ (m1 < m2 \/ (m1 = m2 /\ (f1 < f2 \/ (f1 = f2 /\
    (p1 < p2 \/ (p1 = p2 /\ s1 < s2))))))).

(** * Properties *)

(** ** DER encoder *)

(** C2: when the sizing call [i2d_X509(crt, NULL)] reports a
    non-positive length, [ssl_sock_crt2der] returns 1, the success value,
    and leaves the chunk as it was; the failure value 0 announced by the
    comment above the function is never returned. *)
Theorem crt2der_sizing_failure_returns_1 (crt : X509) (out : buffer) :
  i2d_X509_len crt <= 0 ->
  ssl_sock_crt2der crt out = (1, out).
Proof.
  intros Hlen. unfold ssl_sock_crt2der.
  destruct (Z.leb_spec (i2d_X509_len crt) 0) as [_ | Hgt]; [reflexivity | lia].
Qed.

Lemma crt2der_sizing_failure_witness :
  ssl_sock_crt2der crt_rsa2048 (empty_buffer 16) = (1, empty_buffer 16).
Proof.
  apply (crt2der_sizing_failure_returns_1 crt_rsa2048 (empty_buffer 16)).
  simpl. lia.
Defined.

(** ** Public-key algorithm summarizer *)

Lemma pkey_result_code (r : Z * buffer) :
  fst (pkey_result r) = 0 \/ fst (pkey_result r) = 1.
Proof.
  destruct r as [len o]. unfold pkey_result.
  destruct (len <? 0); simpl; auto.
Qed.

Lemma pkey_result_failure (r : Z * buffer) :
  fst r < 0 -> fst (pkey_result r) = 0.
Proof.
  destruct r as [len o]. simpl. intros H. unfold pkey_result.
  destruct (Z.ltb_spec len 0); [reflexivity | lia].
Qed.

(** C3 (as the code has it): whatever [chunk_printf] does, the
    summarizer only returns 0 or 1.  For an RSA, EC or DSA key whose label
    [chunk_printf] fails to render (negative result) it returns 0, the
    same value as for a missing key or a key of another family, where it
    also leaves the chunk untouched. *)
Theorem pkey_algo_failure_is_0
    (chunk_printf : buffer -> string -> Z -> Z * buffer)
    (crt : X509) (out : buffer) :
  let r := cert_get_pkey_algo chunk_printf crt out in
  (fst r = 0 \/ fst r = 1) /\
  (forall pkey, X509_get_pubkey crt = Some pkey ->
     EVP_PKEY_base_id pkey = EVP_PKEY_RSA ->
     fst (chunk_printf out "RSA%d"%string (EVP_PKEY_bits pkey)) < 0 ->
     fst r = 0) /\
  (forall pkey, X509_get_pubkey crt = Some pkey ->
     EVP_PKEY_base_id pkey = EVP_PKEY_EC ->
     fst (chunk_printf out "EC%d"%string (EVP_PKEY_bits pkey)) < 0 ->
     fst r = 0) /\
  (forall pkey, X509_get_pubkey crt = Some pkey ->
     EVP_PKEY_base_id pkey = EVP_PKEY_DSA ->
     fst (chunk_printf out "DSA%d"%string (EVP_PKEY_bits pkey)) < 0 ->
     fst r = 0) /\
  (forall pkey, X509_get_pubkey crt = Some pkey ->
     EVP_PKEY_base_id pkey <> EVP_PKEY_RSA ->
     EVP_PKEY_base_id pkey <> EVP_PKEY_EC ->
     EVP_PKEY_base_id pkey <> EVP_PKEY_DSA -> r = (0, out)) /\
  (X509_get_pubkey crt = None -> r = (0, out)).
Proof.
  intros r. subst r. unfold cert_get_pkey_algo, pkey_sig.
  repeat split.
  - destruct (X509_get_pubkey crt) as [pkey|]; [ | simpl; auto ].
    destruct (Z.eqb_spec (EVP_PKEY_base_id pkey) EVP_PKEY_RSA);
      [ simpl; apply pkey_result_code | ].
    destruct (Z.eqb_spec (EVP_PKEY_base_id pkey) EVP_PKEY_EC);
      [ simpl; apply pkey_result_code | ].
    destruct (Z.eqb_spec (EVP_PKEY_base_id pkey) EVP_PKEY_DSA);
      [ simpl; apply pkey_result_code | ].
    simpl; auto.
  - intros pkey Hk E Hf. rewrite Hk, E. simpl. now apply pkey_result_failure.
  - intros pkey Hk E Hf. rewrite Hk, E. simpl. now apply pkey_result_failure.
  - intros pkey Hk E Hf. rewrite Hk, E. simpl. now apply pkey_result_failure.
  - intros pkey Hk N1 N2 N3. rewrite Hk.
    destruct (Z.eqb_spec (EVP_PKEY_base_id pkey) EVP_PKEY_RSA); [contradiction|].
    destruct (Z.eqb_spec (EVP_PKEY_base_id pkey) EVP_PKEY_EC); [contradiction|].
    destruct (Z.eqb_spec (EVP_PKEY_base_id pkey) EVP_PKEY_DSA); [contradiction|].
    reflexivity.
  - intros Hk. rewrite Hk. reflexivity.
Qed.

Lemma pkey_algo_failure_is_0_witness :
  fst (cert_get_pkey_algo chunk_printf_model crt_rsa2048 (empty_buffer 4)) = 0.
Proof.
  destruct (pkey_algo_failure_is_0 chunk_printf_model crt_rsa2048
              (empty_buffer 4)) as (_ & Hrsa & _).
  apply (Hrsa (mkpkey EVP_PKEY_RSA 2048));
    [reflexivity | reflexivity | vm_compute; reflexivity].
Defined.

(** C3, as stated, fails: the label [RSA2048] of an RSA key does not fit
    in a chunk of capacity 4, [chunk_printf] fails, and the result is 0,
    not -1. *)
Lemma pkey_algo_too_small_is_not_minus_1 :
  let out := empty_buffer 4 in
  size out < strlen (format_d "RSA%d" 2048) /\
  fst (chunk_printf_model out "RSA%d" 2048) < 0 /\
  fst (cert_get_pkey_algo chunk_printf_model crt_rsa2048 out) <> -1.
Proof.
  vm_compute. repeat split; congruence.
Qed.

(** ** Distinguished name entry locator *)

(** C4 (as the code has it): the running counter is advanced before it
    is compared with [pos], so forward positions count from 1.  On the
    name [(CN,a),(O,b),(CN,c)] and a chunk of capacity at least 1 the
    locator finds [a] for 1, [c] for 2, [c] for -1, [a] for -2, and
    nothing for 0 and for 3. *)
Theorem dn_entry_positions (out : buffer) :
  1 <= size out ->
  let cn := chunk_of_string "CN" in
  outcome (ssl_sock_get_dn_entry dn_abc cn 1 out) = (1, bytes_of_string "a") /\
  outcome (ssl_sock_get_dn_entry dn_abc cn 2 out) = (1, bytes_of_string "c") /\
  outcome (ssl_sock_get_dn_entry dn_abc cn (-1) out) = (1, bytes_of_string "c") /\
  outcome (ssl_sock_get_dn_entry dn_abc cn (-2) out) = (1, bytes_of_string "a") /\
  outcome (ssl_sock_get_dn_entry dn_abc cn 0 out) = (0, []) /\
  outcome (ssl_sock_get_dn_entry dn_abc cn 3 out) = (0, []).
Proof.
  intros Hsz cn. subst cn.
  destruct out as [sz m d]. simpl in Hsz.
  destruct sz as [ | [p | p | ] | p ]; try lia;
    vm_compute; repeat split; reflexivity.
Qed.

Lemma dn_entry_positions_witness :
  outcome (ssl_sock_get_dn_entry dn_abc (chunk_of_string "CN") 1
             (empty_buffer 16)) = (1, bytes_of_string "a").
Proof.
  apply (dn_entry_positions (empty_buffer 16)). simpl. lia.
Defined.

(** C4, as stated, fails at position 0: no entry is found there. *)
Lemma dn_entry_position_0_not_found :
  outcome (ssl_sock_get_dn_entry dn_abc (chunk_of_string "CN") 0
             (empty_buffer 16)) <> (1, bytes_of_string "a").
Proof.
  vm_compute. congruence.
Qed.

(** ** Version string parser *)

(** C5 (as the code has it): ["1.0.2u"] parses to the ordinal
    [0x1000215f], whose fields are major 1, minor 0, fix 2, status [0xf]
    and patch 21, that is 1 + ('U' - 'A'); ["3.0.0-beta2"] parses to
    [0x30000002], with status 2, patch 0 and fix 0. *)
Theorem version_parser_examples :
  let v := openssl_version_parser (Some "1.0.2u"%string) in
  let b := openssl_version_parser (Some "3.0.0-beta2"%string) in
  v = 0x1000215f /\
  ver_major v = 1 /\ ver_minor v = 0 /\ ver_fix v = 2 /\
  ver_status v = 0xf /\ ver_patch v = 1 + (char_code "U" - char_code "A") /\
  ver_patch v = 21 /\
  v = numversion 1 0 2 21 0xf /\
  b = 0x30000002 /\
  ver_major b = 3 /\ ver_minor b = 0 /\
  ver_status b = 2 /\ ver_patch b = 0 /\ ver_fix b = 0.
Proof.
  vm_compute. repeat split.
Qed.

(** C5, as stated, fails: the patch field of ["1.0.2u"] is not 22. *)
Lemma version_parser_patch_not_22 :
  ver_patch (openssl_version_parser (Some "1.0.2u"%string)) <> 22.
Proof.
  vm_compute. congruence.
Qed.

(** ** Outcome [NotFound] and the chunk *)

Lemma BIO_read_nothing (content : list Z) (m : Z -> Z) (dlen : Z) :
  fst (BIO_read content m dlen) <= 0 -> snd (BIO_read content m dlen) = m.
Proof.
  unfold BIO_read.
  destruct (Z.leb_spec (Z.min dlen (len_of content)) 0); simpl; [auto | lia].
Qed.

(** C6 (as the code has it): the serial extractor and the RFC2253
    formatter leave the chunk, its length included, exactly as it was
    whenever they return 0; this is what happens for a certificate
    without serial number and for a format tag other than [rfc2253]. *)
Theorem notfound_leaves_chunk_unchanged
    (BIO_new : bool) (X509_NAME_print_ex : X509_NAME -> Z * list Z)
    (crt : X509) (a : X509_NAME) (format out : buffer) :
  let rs := ssl_sock_get_serial crt out in
  let rf := ssl_sock_get_dn_formatted BIO_new X509_NAME_print_ex a format out in
  (X509_get_serialNumber crt = None -> rs = (0, out)) /\
  (fst rs = 0 -> snd rs = out) /\
  (chunk_strcmp format "rfc2253" <> 0 -> rf = (0, out)) /\
  (BIO_new = false -> rf = (0, out)) /\
  (fst (X509_NAME_print_ex a) < 0 -> rf = (0, out)) /\
  (fst rf = 0 -> snd rf = out).
Proof.
  intros rs rf. subst rs rf.
  unfold ssl_sock_get_serial, ssl_sock_get_dn_formatted.
  repeat split.
  - intros H. now rewrite H.
  - destruct (X509_get_serialNumber crt) as [serial|]; [ | reflexivity ].
    destruct (size out <? to_size_t (asn1_length serial)); simpl;
      intros H; discriminate H.
  - intros H. destruct (Z.eqb_spec (chunk_strcmp format "rfc2253") 0);
      [contradiction | reflexivity].
  - intros H. rewrite H. simpl.
    destruct (chunk_strcmp format "rfc2253" =? 0); reflexivity.
  - intros H. destruct (X509_NAME_print_ex a) as [rc content]. simpl in H.
    destruct (Z.ltb_spec rc 0); [ | lia ].
    destruct (chunk_strcmp format "rfc2253" =? 0); [ | reflexivity ].
    destruct BIO_new; reflexivity.
  - destruct (chunk_strcmp format "rfc2253" =? 0); [ | reflexivity ].
    destruct BIO_new; simpl; [ | reflexivity ].
    destruct (X509_NAME_print_ex a) as [rc content].
    destruct (rc <? 0); [ reflexivity | ].
    pose proof (BIO_read_nothing content (area out) (to_int (size out)))
      as Hrd.
    destruct (BIO_read content (area out) (to_int (size out)))
      as [data_len m].
    simpl in Hrd.
    destruct (Z.leb_spec data_len 0) as [Hle | Hgt]; simpl.
    + intros _. rewrite (Hrd Hle). destruct out; reflexivity.
    + intros H; discriminate H.
Qed.

Lemma notfound_leaves_chunk_unchanged_witness :
  ssl_sock_get_serial crt_rsa2048 (mkbuf 8 zero_area 5)
    = (0, mkbuf 8 zero_area 5) /\
  ssl_sock_get_dn_formatted true (fun _ => (0, [])) dn_abc
      (chunk_of_string "oneline") (mkbuf 8 zero_area 5)
    = (0, mkbuf 8 zero_area 5).
Proof.
  destruct (notfound_leaves_chunk_unchanged true (fun _ => (0, []))
              crt_rsa2048 dn_abc (chunk_of_string "oneline")
              (mkbuf 8 zero_area 5)) as (Hs & _ & Hf & _).
  split; [ apply Hs; reflexivity | apply Hf; vm_compute; congruence ].
Defined.

(** C6, as stated, fails: a chunk of length 5 handed to the serial
    extractor with a certificate that has no serial number comes back
    with result 0 and length 5, not 0. *)
Lemma get_serial_notfound_keeps_length :
  let r := ssl_sock_get_serial crt_rsa2048 (mkbuf 8 zero_area 5) in
  fst r = 0 /\ data (snd r) <> 0.
Proof.
  vm_compute. split; congruence.
Qed.

(** ** Reading a chunk back *)

Lemma chunk_bytes_length (b : buffer) :
  length (chunk_bytes b) = Z.to_nat (data b).
Proof.
  unfold chunk_bytes. now rewrite length_map, length_seq.
Qed.

Lemma chunk_bytes_nth (b : buffer) (k : nat) :
  (k < Z.to_nat (data b))%nat ->
  nth k (chunk_bytes b) 0 = area b (Z.of_nat k).
Proof.
  intros Hk. unfold chunk_bytes.
  rewrite (nth_indep _ 0 (area b (Z.of_nat 0)))
    by (now rewrite length_map, length_seq).
  rewrite (map_nth (fun i => area b (Z.of_nat i))).
  now rewrite seq_nth.
Qed.

(** A chunk whose storage agrees with [m] below [d] and holds [src] from
    [d] on reads as the old bytes followed by [src]. *)
Lemma chunk_bytes_app (s s' : Z) (f m : Z -> Z) (d : Z) (src : list Z) :
  0 <= d ->
  (forall i, 0 <= i < d -> f i = m i) ->
  (forall i, d <= i < d + len_of src -> f i = nth (Z.to_nat (i - d)) src 0) ->
  chunk_bytes (mkbuf s f (d + len_of src)) = chunk_bytes (mkbuf s' m d) ++ src.
Proof.
  intros Hd Hlow Hhigh. unfold len_of in *.
  apply (nth_ext _ _ 0 0).
  - rewrite length_app, !chunk_bytes_length. simpl. lia.
  - intros k Hk. rewrite chunk_bytes_length in Hk. simpl in Hk.
    rewrite chunk_bytes_nth by (simpl; lia). simpl.
    destruct (Nat.lt_ge_cases k (Z.to_nat d)) as [Hlt | Hge].
    + rewrite app_nth1 by (rewrite chunk_bytes_length; simpl; lia).
      rewrite chunk_bytes_nth by (simpl; lia). simpl.
      apply Hlow. lia.
    + rewrite app_nth2 by (rewrite chunk_bytes_length; simpl; lia).
      rewrite chunk_bytes_length. simpl.
      rewrite Hhigh by lia. f_equal. lia.
Qed.

Lemma chunk_bytes_empty (s : Z) (m : Z -> Z) : chunk_bytes (mkbuf s m 0) = [].
Proof. reflexivity. Qed.

(** After [memcpy(area, src, n)] and [data = n] the chunk reads [src]. *)
Lemma chunk_bytes_memcpy (s : Z) (m : Z -> Z) (src : list Z) :
  chunk_bytes (mkbuf s (memcpy m 0 src (len_of src)) (len_of src)) = src.
Proof.
  change (len_of src) with (0 + len_of src) at 2.
  rewrite (chunk_bytes_app s s (memcpy m 0 src (len_of src)) m 0 src).
  - reflexivity.
  - lia.
  - intros i Hi. lia.
  - intros i Hi. unfold memcpy.
    destruct (Z.leb_spec 0 i); [ | lia ].
    destruct (Z.ltb_spec i (0 + len_of src)); [ | lia ].
    reflexivity.
Qed.

Lemma to_size_t_small (z : Z) : 0 <= z <= INT_MAX -> to_size_t z = z.
Proof.
  intros H. unfold to_size_t, SIZE_MOD. apply Z.mod_small.
  unfold INT_MAX in H. lia.
Qed.

Lemma len_of_skipn {A : Type} (n : nat) (l : list A) :
  (n <= length l)%nat -> len_of (skipn n l) = len_of l - Z.of_nat n.
Proof.
  intros H. unfold len_of. rewrite length_skipn. lia.
Qed.

(** ** Validity time extractor *)

Lemma firstn_2_bytes (l : list Z) (x y : Z) :
  (2 <= length l)%nat ->
  (firstn 2 l = [x; y] <-> nth 0 l 0 = x /\ nth 1 l 0 = y).
Proof.
  intros Hl. destruct l as [ | a [ | b l ] ]; simpl in Hl; try lia.
  simpl. split.
  - intros H. now inversion H.
  - intros [Ha Hb]. now subst.
Qed.

Lemma get_time_gentime (tm : ASN1_STRING) (out : buffer) :
  asn1_ok tm -> gentime_accepted tm ->
  ssl_sock_get_time tm out =
    if size out <? asn1_length tm - 2 then (-1, out)
    else (1, mkbuf (size out)
                   (memcpy (area out) 0 (skipn 2 (asn1_data tm))
                           (len_of (skipn 2 (asn1_data tm))))
                   (len_of (skipn 2 (asn1_data tm)))).
Proof.
  intros [Hlen Hmax] (Ht & H12 & Hpre).
  assert (Hl : (2 <= length (asn1_data tm))%nat)
    by (unfold len_of in Hlen; lia).
  change (bytes_of_string "20") with [0x32; 0x30] in Hpre.
  apply firstn_2_bytes in Hpre; [ | exact Hl ].
  destruct Hpre as [E0 E1].
  unfold ssl_sock_get_time. rewrite Ht, E0, E1, !Z.eqb_refl.
  cbn [negb orb].
  destruct (Z.ltb_spec (asn1_length tm) 12); [ lia | ].
  rewrite to_size_t_small by lia.
  rewrite len_of_skipn by exact Hl. rewrite <- Hlen. reflexivity.
Qed.

Lemma get_time_utctime (tm : ASN1_STRING) (out : buffer) :
  asn1_ok tm -> utctime_accepted tm ->
  ssl_sock_get_time tm out =
    if size out <? asn1_length tm then (-1, out)
    else (1, mkbuf (size out)
                   (memcpy (area out) 0 (asn1_data tm) (len_of (asn1_data tm)))
                   (len_of (asn1_data tm))).
Proof.
  intros [Hlen Hmax] (Ht & H10 & Hc).
  change (char_code "5") with 0x35 in Hc.
  unfold ssl_sock_get_time. rewrite Ht.
  change (V_ASN1_UTCTIME =? V_ASN1_GENERALIZEDTIME) with false.
  rewrite Z.eqb_refl. cbv iota.
  destruct (Z.ltb_spec (asn1_length tm) 10); [ lia | ].
  destruct (Z.leb_spec 0x35 (nth 0 (asn1_data tm) 0)); [ lia | ].
  rewrite to_size_t_small by lia. rewrite <- Hlen. reflexivity.
Qed.

Lemma get_time_rejected (tm : ASN1_STRING) (out : buffer) :
  asn1_ok tm -> ~ gentime_accepted tm -> ~ utctime_accepted tm ->
  ssl_sock_get_time tm out = (0, out).
Proof.
  intros [Hlen Hmax] Hg Hu.
  unfold gentime_accepted, utctime_accepted in *.
  change (bytes_of_string "20") with [0x32; 0x30] in Hg.
  change (char_code "5") with 0x35 in Hu.
  unfold ssl_sock_get_time.
  destruct (Z.eqb_spec (asn1_type tm) V_ASN1_GENERALIZEDTIME) as [Ht | Ht].
  - destruct (Z.ltb_spec (asn1_length tm) 12); [ reflexivity | ].
    destruct (Z.eqb_spec (nth 0 (asn1_data tm) 0) 0x32) as [E0 | E0];
      [ | reflexivity ].
    destruct (Z.eqb_spec (nth 1 (asn1_data tm) 0) 0x30) as [E1 | E1];
      [ | reflexivity ].
    exfalso. apply Hg. repeat split; [ assumption | lia | ].
    apply firstn_2_bytes; [ unfold len_of in Hlen; lia | now split ].
  - destruct (Z.eqb_spec (asn1_type tm) V_ASN1_UTCTIME) as [Hu' | Hu'];
      [ | reflexivity ].
    destruct (Z.ltb_spec (asn1_length tm) 10); [ reflexivity | ].
    destruct (Z.leb_spec 0x35 (nth 0 (asn1_data tm) 0)); [ reflexivity | ].
    exfalso. apply Hu. repeat split; [ assumption | lia | lia ].
Qed.

(** C7: [ssl_sock_get_time] on a well-formed time value.  An accepted
    generalized time is copied without its first two bytes, an accepted
    UTC time is copied verbatim, each with result 1 when the bytes to
    copy fit in the capacity and result -1 with the chunk untouched when
    they do not; every other value gives result 0 with the chunk
    untouched. *)
Theorem get_time_outcomes (tm : ASN1_STRING) (out : buffer) :
  asn1_ok tm ->
  let r := ssl_sock_get_time tm out in
  let n := asn1_length tm in
  (gentime_accepted tm -> size out < n - 2 -> r = (-1, out)) /\
  (gentime_accepted tm -> n - 2 <= size out ->
     fst r = 1 /\ size (snd r) = size out /\ data (snd r) = n - 2 /\
     chunk_bytes (snd r) = skipn 2 (asn1_data tm)) /\
  (utctime_accepted tm -> size out < n -> r = (-1, out)) /\
  (utctime_accepted tm -> n <= size out ->
     fst r = 1 /\ size (snd r) = size out /\ data (snd r) = n /\
     chunk_bytes (snd r) = asn1_data tm) /\
  (~ gentime_accepted tm -> ~ utctime_accepted tm -> r = (0, out)).
Proof.
  intros Hok r n. subst r n.
  pose proof Hok as [Hlen Hmax].
  split; [ | split; [ | split; [ | split ] ] ].
  - intros Hg Hsz. rewrite (get_time_gentime tm out Hok Hg).
    destruct (Z.ltb_spec (size out) (asn1_length tm - 2)); [ reflexivity | lia ].
  - intros Hg Hsz. rewrite (get_time_gentime tm out Hok Hg).
    destruct Hg as (_ & H12 & _).
    destruct (Z.ltb_spec (size out) (asn1_length tm - 2)); [ lia | ].
    cbn [fst snd size data]. repeat split.
    + rewrite len_of_skipn; unfold len_of in *; lia.
    + apply chunk_bytes_memcpy.
  - intros Hu Hsz. rewrite (get_time_utctime tm out Hok Hu).
    destruct (Z.ltb_spec (size out) (asn1_length tm)); [ reflexivity | lia ].
  - intros Hu Hsz. rewrite (get_time_utctime tm out Hok Hu).
    destruct (Z.ltb_spec (size out) (asn1_length tm)); [ lia | ].
    cbn [fst snd size data]. repeat split.
    + now rewrite Hlen.
    + apply chunk_bytes_memcpy.
  - intros Hg Hu. now apply get_time_rejected.
Qed.

Lemma get_time_outcomes_witness :
  let tm := mkasn1 13 V_ASN1_UTCTIME (bytes_of_string "260101000000Z") in
  outcome (ssl_sock_get_time tm (empty_buffer 32))
    = (1, bytes_of_string "260101000000Z").
Proof.
  intros tm.
  assert (Hok : asn1_ok tm) by (split; [ reflexivity | vm_compute; congruence ]).
  destruct (get_time_outcomes tm (empty_buffer 32) Hok)
    as (_ & _ & _ & Hutc & _).
  destruct Hutc as (Hr & _ & _ & Hb).
  - repeat split; vm_compute; congruence.
  - vm_compute; congruence.
  - unfold outcome. now rewrite Hr, Hb.
Defined.

(** ** Stores into the storage map *)

Lemma store_memcpy (m : Z -> Z) (off v i : Z) :
  store m off v i = memcpy m off [v] 1 i.
Proof.
  unfold store, memcpy.
  destruct (Z.eqb_spec i off) as [E | N].
  - subst i.
    destruct (Z.leb_spec off off); [ | lia ].
    destruct (Z.ltb_spec off (off + 1)); [ | lia ].
    now rewrite Z.sub_diag.
  - destruct (Z.leb_spec off i); [ | reflexivity ].
    destruct (Z.ltb_spec i (off + 1)); [ lia | reflexivity ].
Qed.

Lemma memcpy_ext (m m' : Z -> Z) (off : Z) (src : list Z) (n : Z) :
  (forall i, m i = m' i) ->
  forall i, memcpy m off src n i = memcpy m' off src n i.
Proof.
  intros H i. unfold memcpy.
  destruct ((off <=? i) && (i <? off + n)); [ reflexivity | apply H ].
Qed.

(** Two adjacent copies are one copy of the concatenation. *)
Lemma memcpy_app (m : Z -> Z) (off : Z) (l1 l2 : list Z) (i : Z) :
  memcpy (memcpy m off l1 (len_of l1)) (off + len_of l1) l2 (len_of l2) i
  = memcpy m off (l1 ++ l2) (len_of (l1 ++ l2)) i.
Proof.
  unfold memcpy, len_of. rewrite length_app, Nat2Z.inj_add.
  destruct (Z.leb_spec (off + Z.of_nat (length l1)) i) as [H1 | H1].
  - destruct (Z.leb_spec off i); [ | lia ].
    destruct (Z.ltb_spec i (off + Z.of_nat (length l1) + Z.of_nat (length l2)));
      destruct (Z.ltb_spec i (off + (Z.of_nat (length l1) + Z.of_nat (length l2))));
      try lia; cbn [andb].
    + rewrite app_nth2 by lia. f_equal. lia.
    + destruct (Z.ltb_spec i (off + Z.of_nat (length l1))); [ lia | reflexivity ].
  - cbn [andb].
    destruct (Z.leb_spec off i); cbn [andb]; [ | reflexivity ].
    destruct (Z.ltb_spec i (off + Z.of_nat (length l1))); [ | lia ].
    destruct (Z.ltb_spec i (off + (Z.of_nat (length l1) + Z.of_nat (length l2))));
      [ | lia ].
    now rewrite app_nth1 by lia.
Qed.

Lemma bytes_of_string_length (s : string) :
  len_of (bytes_of_string s) = strlen s.
Proof.
  unfold len_of, bytes_of_string, strlen. rewrite length_map. f_equal.
  induction s as [ | c s IH ]; simpl; [ reflexivity | now rewrite IH ].
Qed.

(** ** Oneline formatter *)

(** The name the code computes at lines 264-268 is the short name of
    the data model: the registered short name when the object is known
    and has one, the textual object identifier otherwise. *)
Lemma entry_name_short_name (obj : ASN1_OBJECT) :
  entry_name obj = short_name obj.
Proof.
  unfold entry_name, short_name, registered_short_name.
  destruct (OBJ_obj2nid obj =? NID_undef); [ reflexivity | ].
  destruct (OBJ_nid2sn obj); reflexivity.
Qed.

Lemma oneline_entry_length (ne : X509_NAME_ENTRY) :
  entry_ok ne ->
  len_of (oneline_entry ne)
  = 1 + strlen (entry_name (X509_NAME_ENTRY_get_object ne)) + 1
    + asn1_length (X509_NAME_ENTRY_get_data ne).
Proof.
  intros Hok. rewrite Hok, <- bytes_of_string_length, entry_name_short_name.
  unfold oneline_entry, len_of. rewrite !length_app.
  change (length (bytes_of_string "/")) with 1%nat.
  change (length (bytes_of_string "=")) with 1%nat. lia.
Qed.

Lemma oneline_entry_length_pos (ne : X509_NAME_ENTRY) :
  2 <= len_of (oneline_entry ne).
Proof.
  unfold oneline_entry, len_of. rewrite !length_app.
  change (length (bytes_of_string "/")) with 1%nat.
  change (length (bytes_of_string "=")) with 1%nat. lia.
Qed.

Lemma oneline_text_cons (ne : X509_NAME_ENTRY) (a : X509_NAME) :
  oneline_text (ne :: a) = oneline_entry ne ++ oneline_text a.
Proof. reflexivity. Qed.

Lemma len_of_app {A : Type} (l1 l2 : list A) :
  len_of (l1 ++ l2) = len_of l1 + len_of l2.
Proof. unfold len_of. rewrite length_app. lia. Qed.

Lemma len_of_nonneg {A : Type} (l : list A) : 0 <= len_of l.
Proof. unfold len_of. lia. Qed.

(** The four stores of one iteration amount to one copy of the entry's
    text at [p]. *)
Lemma oneline_put_memcpy (m : Z -> Z) (p : Z) (ne : X509_NAME_ENTRY) (i : Z) :
  entry_ok ne ->
  oneline_put m p (entry_name (X509_NAME_ENTRY_get_object ne))
              (asn1_data (X509_NAME_ENTRY_get_data ne))
              (asn1_length (X509_NAME_ENTRY_get_data ne)) i
  = memcpy m p (oneline_entry ne) (len_of (oneline_entry ne)) i.
Proof.
  intros Hok. unfold oneline_put, oneline_entry.
  rewrite Hok, <- entry_name_short_name.
  change (bytes_of_string "/") with [47].
  change (bytes_of_string "=") with [61].
  set (s := bytes_of_string (entry_name (X509_NAME_ENTRY_get_object ne))).
  set (d := asn1_data (X509_NAME_ENTRY_get_data ne)).
  rewrite <- bytes_of_string_length. fold s.
  rewrite <- !memcpy_app.
  change (len_of [47]) with 1. change (len_of [61]) with 1.
  apply memcpy_ext. intros i1. rewrite store_memcpy.
  apply memcpy_ext. intros i2.
  apply memcpy_ext. intros i3. apply store_memcpy.
Qed.

Lemma get_entry_middle (pre rest : X509_NAME) (ne : X509_NAME_ENTRY) :
  X509_NAME_get_entry (pre ++ ne :: rest) (len_of pre) = ne.
Proof.
  unfold X509_NAME_get_entry, len_of. rewrite Nat2Z.id. apply nth_middle.
Qed.

(** The loop, started after the entries [pre] with [l], [p] and the
    length of the chunk all equal, appends the text of the leading
    entries of [rest] that fit and stops at the first that does not. *)
Lemma dn_oneline_loop_spec (rest : X509_NAME) :
  forall (pre : X509_NAME) (out : buffer),
  Forall entry_ok rest ->
  0 <= data out ->
  data out + len_of (oneline_text rest) <= INT_MAX ->
  let r := dn_oneline_loop (length rest) (pre ++ rest) (len_of pre)
                           (data out) (data out) out in
  let k := oneline_fit (size out) (data out) rest in
  size (snd r) = size out /\
  fst r = (k =? length rest)%nat /\
  data (snd r) = data out + len_of (oneline_text (firstn k rest)) /\
  chunk_bytes (snd r) = chunk_bytes out ++ oneline_text (firstn k rest).
Proof.
  induction rest as [ | ne rest IH ]; intros pre out Hok Hd Hmax.
  - simpl. rewrite app_nil_r. repeat split. unfold len_of. simpl. lia.
  - inversion Hok as [ | ? ? Hne Hrest ]; subst.
    rewrite oneline_text_cons, len_of_app in Hmax.
    pose proof (oneline_entry_length_pos ne) as Hpos.
    pose proof (len_of_nonneg (oneline_text rest)) as Hnn.
    cbn [length dn_oneline_loop oneline_fit].
    rewrite get_entry_middle, <- (oneline_entry_length ne Hne).
    rewrite <- !Z.add_assoc, (Z.add_assoc 1), (Z.add_assoc (1 + _)).
    rewrite <- (oneline_entry_length ne Hne).
    rewrite to_size_t_small by lia.
    destruct (Z.ltb_spec (size out) (data out + len_of (oneline_entry ne)))
      as [Hsmall | Hfit].
    + simpl. rewrite app_nil_r. repeat split. unfold len_of. simpl. lia.
    + set (out1 := mkbuf (size out)
                     (oneline_put (area out) (data out)
                        (entry_name (X509_NAME_ENTRY_get_object ne))
                        (asn1_data (X509_NAME_ENTRY_get_data ne))
                        (asn1_length (X509_NAME_ENTRY_get_data ne)))
                     (data out + len_of (oneline_entry ne))).
      assert (Hbytes : chunk_bytes out1 = chunk_bytes out ++ oneline_entry ne).
      { unfold out1. destruct out as [sz m d]. simpl in *.
        apply chunk_bytes_app; [ lia | | ].
        - intros i Hi. rewrite oneline_put_memcpy by exact Hne.
          unfold memcpy. destruct (Z.leb_spec d i); [ lia | reflexivity ].
        - intros i Hi. rewrite oneline_put_memcpy by exact Hne.
          unfold memcpy. destruct (Z.leb_spec d i); [ | lia ].
          destruct (Z.ltb_spec i (d + len_of (oneline_entry ne))); [ | lia ].
          reflexivity. }
      specialize (IH (pre ++ [ne]) out1 Hrest).
      replace (len_of pre + 1) with (len_of (pre ++ [ne]))
        by (rewrite len_of_app; reflexivity).
      replace (pre ++ ne :: rest) with ((pre ++ [ne]) ++ rest)
        by (now rewrite <- app_assoc).
      change (data out + len_of (oneline_entry ne)) with (data out1).
      change (size out) with (size out1) at 2.
      destruct IH as (Hs & Hc & Hdata & Hb);
        [ simpl; lia | simpl; lia | ].
      cbn [firstn]. rewrite oneline_text_cons, (len_of_app (oneline_entry ne)).
      change (size out1) with (size out) in *.
      repeat split.
      * rewrite Hs. reflexivity.
      * rewrite Hc. reflexivity.
      * rewrite Hdata. change (data out1)
          with (data out + len_of (oneline_entry ne)). lia.
      * rewrite Hb, Hbytes. now rewrite <- app_assoc.
Qed.

(** What [oneline_fit] counts: the entries up to the first whose text
    would push the running total beyond the capacity. *)
Lemma oneline_fit_spec (a : X509_NAME) :
  forall cap l,
  let k := oneline_fit cap l a in
  (k <= length a)%nat /\
  (l <= cap -> l + len_of (oneline_text (firstn k a)) <= cap) /\
  ((k < length a)%nat ->
   cap < l + len_of (oneline_text (firstn (S k) a))) /\
  (l + len_of (oneline_text a) <= cap -> k = length a) /\
  (l <= cap -> cap < l + len_of (oneline_text a) -> (k < length a)%nat).
Proof.
  induction a as [ | ne a IH ]; intros cap l.
  - simpl. change (len_of (oneline_text [])) with 0.
    repeat split; intros; lia.
  - cbn [oneline_fit].
    pose proof (len_of_nonneg (oneline_text a)) as Hnn.
    pose proof (oneline_entry_length_pos ne) as Hpos.
    destruct (Z.ltb_spec cap (l + len_of (oneline_entry ne))) as [Hs | Hf].
    + cbn [firstn length]. rewrite !oneline_text_cons, !len_of_app.
      change (len_of (oneline_text [])) with 0.
      repeat split; lia.
    + destruct (IH cap (l + len_of (oneline_entry ne)))
        as (H1 & H2 & H3 & H4 & H5).
      rewrite !firstn_cons. cbn [length].
      rewrite !oneline_text_cons, !len_of_app.
      repeat split; lia.
Qed.

Lemma dn_oneline_unfold (a : X509_NAME) (out : buffer) :
  ssl_sock_get_dn_oneline a out =
    let r := dn_oneline_loop (length a) ([] ++ a) (len_of (@nil X509_NAME_ENTRY))
               (data (set_data out 0)) (data (set_data out 0))
               (set_data out 0) in
    if fst r then (if data (snd r) =? 0 then (0, snd r) else (1, snd r))
    else (-1, snd r).
Proof.
  unfold ssl_sock_get_dn_oneline, X509_NAME_entry_count, len_of.
  rewrite Nat2Z.id. simpl.
  destruct (dn_oneline_loop (length a) a 0 0 0 (set_data out 0)) as [c o].
  reflexivity.
Qed.

(** C8: the oneline formatter.  The capacity of the chunk is never
    changed.  An empty name gives result 0 with length 0.  A non-empty
    name whose whole text fits gives result 1 and the chunk reads as the
    forward concatenation of [/name=value] over the entries; for the name
    [(CN,a),(O,b),(CN,c)] and capacity at least 14 this is
    [/CN=a/O=b/CN=c].  When the text does not fit the result is -1 and
    the chunk holds exactly the first [k] entries, the largest number of
    leading entries whose total is within the capacity.  The name written
    for an entry is the short name registered for its attribute, not the
    text of its object identifier; that text is written only for an
    object the library does not know or has no short name for, as in
    [/CN=a/1.2.3.4=x/1.2.3.5=y]. *)
Theorem dn_oneline_outcomes (a : X509_NAME) (out : buffer) :
  Forall entry_ok a ->
  len_of (oneline_text a) <= INT_MAX ->
  0 <= size out ->
  let r := ssl_sock_get_dn_oneline a out in
  size (snd r) = size out /\
  (a = [] -> fst r = 0 /\ data (snd r) = 0) /\
  (a <> [] -> len_of (oneline_text a) <= size out ->
     fst r = 1 /\ chunk_bytes (snd r) = oneline_text a) /\
  (size out < len_of (oneline_text a) ->
     fst r = -1 /\
     exists k : nat, (k < length a)%nat /\
       chunk_bytes (snd r) = oneline_text (firstn k a) /\
       data (snd r) = len_of (oneline_text (firstn k a)) /\
       data (snd r) <= size out /\
       size out < len_of (oneline_text (firstn (S k) a))) /\
  (a = dn_abc -> 14 <= size out ->
     outcome r = (1, bytes_of_string "/CN=a/O=b/CN=c")) /\
  (a = dn_mixed -> 25 <= size out ->
     outcome r = (1, bytes_of_string "/CN=a/1.2.3.4=x/1.2.3.5=y")) /\
  (forall ne sn,
     OBJ_obj2nid (X509_NAME_ENTRY_get_object ne) <> NID_undef ->
     OBJ_nid2sn (X509_NAME_ENTRY_get_object ne) = Some sn ->
     oneline_entry ne
     = bytes_of_string "/" ++ bytes_of_string sn ++ bytes_of_string "="
       ++ asn1_data (X509_NAME_ENTRY_get_data ne)) /\
  (forall ne,
     OBJ_obj2nid (X509_NAME_ENTRY_get_object ne) = NID_undef \/
     OBJ_nid2sn (X509_NAME_ENTRY_get_object ne) = None ->
     oneline_entry ne
     = bytes_of_string "/"
       ++ bytes_of_string (i2t_ASN1_OBJECT (X509_NAME_ENTRY_get_object ne))
       ++ bytes_of_string "=" ++ asn1_data (X509_NAME_ENTRY_get_data ne)).
Proof.
  intros Hok Hmax Hsz r. subst r.
  rewrite dn_oneline_unfold.
  pose proof (dn_oneline_loop_spec a [] (set_data out 0) Hok) as Hloop.
  cbn [set_data data size] in Hloop. cbn [set_data data size].
  specialize (Hloop (Z.le_refl 0) Hmax).
  cbv zeta in Hloop |- *.
  pose proof (oneline_fit_spec a (size out) 0) as Hfit. cbv zeta in Hfit.
  set (k := oneline_fit (size out) 0 a) in *.
  set (r := dn_oneline_loop (length a) ([] ++ a) (len_of (@nil X509_NAME_ENTRY))
              0 0 (set_data out 0)) in *.
  destruct Hloop as (Hs & Hc & Hd & Hb).
  destruct Hfit as (F1 & F2 & F3 & F4 & F5).
  change (chunk_bytes (set_data out 0)) with (@nil Z) in Hb. cbn [app] in Hb.
  assert (Hall : a <> [] -> len_of (oneline_text a) <= size out ->
                 fst (if fst r
                      then if data (snd r) =? 0 then (0, snd r) else (1, snd r)
                      else (-1, snd r)) = 1 /\
                 chunk_bytes (snd (if fst r
                      then if data (snd r) =? 0 then (0, snd r) else (1, snd r)
                      else (-1, snd r))) = oneline_text a).
  { intros Hne Hcap.
    assert (Hk : k = length a) by (apply F4; lia).
    rewrite Hk, Nat.eqb_refl in Hc. rewrite Hk, firstn_all in Hd, Hb.
    rewrite Hc.
    destruct a as [ | ne a' ]; [ congruence | ].
    rewrite oneline_text_cons, len_of_app in Hd.
    pose proof (oneline_entry_length_pos ne).
    pose proof (len_of_nonneg (oneline_text a')).
    destruct (Z.eqb_spec (data (snd r)) 0); [ lia | ].
    cbn [fst snd]. now split. }
  split; [ | split; [ | split; [ | split; [ | split; [ | split; [ | split ] ] ] ] ] ].
  - destruct (fst r); [ destruct (data (snd r) =? 0) | ]; exact Hs.
  - intros Ha. subst a. simpl in *. split; reflexivity.
  - exact Hall.
  - intros Hsmall.
    assert (Hk : (k < length a)%nat) by (apply F5; lia).
    assert (Hneq : (k =? length a)%nat = false) by (apply Nat.eqb_neq; lia).
    rewrite Hneq in Hc. rewrite Hc. cbn [fst snd].
    split; [ reflexivity | ].
    specialize (F3 Hk). specialize (F2 Hsz).
    exists k. split; [ exact Hk | ]. split; [ exact Hb | ].
    split; [ rewrite Hd; lia | ]. split; [ rewrite Hd; lia | lia ].
  - intros Ha H14.
    destruct Hall as [Hr Ht].
    + subst a. discriminate.
    + subst a. vm_compute. vm_compute in H14. exact H14.
    + unfold outcome. rewrite Hr, Ht. subst a. reflexivity.
  - intros Ha H25.
    destruct Hall as [Hr Ht].
    + subst a. discriminate.
    + subst a. vm_compute. vm_compute in H25. exact H25.
    + unfold outcome. rewrite Hr, Ht. subst a. reflexivity.
  - intros ne sn Hnid Hsn. unfold oneline_entry, short_name,
      registered_short_name.
    destruct (Z.eqb_spec (OBJ_obj2nid (X509_NAME_ENTRY_get_object ne))
                NID_undef); [ contradiction | ].
    now rewrite Hsn.
  - intros ne [Hnid | Hsn]; unfold oneline_entry, short_name,
      registered_short_name.
    + now rewrite Hnid, Z.eqb_refl.
    + rewrite Hsn.
      now destruct (OBJ_obj2nid (X509_NAME_ENTRY_get_object ne) =? NID_undef).
Qed.

Lemma dn_oneline_outcomes_witness :
  outcome (ssl_sock_get_dn_oneline dn_abc (empty_buffer 14))
    = (1, bytes_of_string "/CN=a/O=b/CN=c").
Proof.
  assert (Hok : Forall entry_ok dn_abc)
    by (repeat constructor).
  assert (Hmax : len_of (oneline_text dn_abc) <= INT_MAX)
    by (vm_compute; congruence).
  assert (Hsz : 0 <= size (empty_buffer 14))
    by (vm_compute; congruence).
  destruct (dn_oneline_outcomes dn_abc (empty_buffer 14) Hok Hmax Hsz)
    as (_ & _ & _ & _ & Habc & _).
  apply Habc; [ reflexivity | vm_compute; congruence ].
Defined.

Lemma list_pair_ind (P : list Z -> Prop) :
  P [] -> (forall a, P [a]) ->
  (forall a b l, P l -> P (a :: b :: l)) ->
  forall l, P l.
Proof.
  intros H0 H1 H2 l.
  assert (H : P l /\ forall a, P (a :: l)).
  { induction l as [ | x l [IHl IHxl] ]; split; auto. }
  apply H.
Qed.

(** ** GREASE filter *)

Lemma size_sub_small (a b : Z) :
  0 <= a - b < SIZE_MOD -> size_sub a b = a - b.
Proof. intros H. unfold size_sub. now apply Z.mod_small. Qed.

Lemma size_add_small (a b : Z) :
  0 <= a + b < SIZE_MOD -> size_add a b = a + b.
Proof. intros H. unfold size_add. now apply Z.mod_small. Qed.

Lemma size_sub_wrap (a b : Z) :
  - SIZE_MOD <= a - b < 0 -> size_sub a b = a - b + SIZE_MOD.
Proof.
  intros H. unfold size_sub. symmetry.
  apply Z.mod_unique with (q := -1); lia.
Qed.

Lemma SIZE_MOD_value : SIZE_MOD = 18446744073709551616.
Proof. reflexivity. Qed.

Lemma INT_MAX_value : INT_MAX = 2147483647.
Proof. reflexivity. Qed.

(** [chunk_bytes_app] between two chunks. *)
Lemma chunk_bytes_extend (o o' : buffer) (src : list Z) :
  0 <= data o ->
  data o' = data o + len_of src ->
  (forall i, 0 <= i < data o -> area o' i = area o i) ->
  (forall i, data o <= i < data o + len_of src ->
     area o' i = nth (Z.to_nat (i - data o)) src 0) ->
  chunk_bytes o' = chunk_bytes o ++ src.
Proof.
  destruct o as [s m d], o' as [s' m' d']. cbn [size data area].
  intros Hd Hd' Hlow Hhigh. subst d'. now apply chunk_bytes_app.
Qed.

Lemma pairs_kept_snoc (l : list Z) (a b : Z) :
  pairs_kept l -> is_grease a b = false -> pairs_kept (l ++ [a; b]).
Proof.
  intros Hl Hab. revert Hl.
  induction l as [ | x | x y l IH ] using list_pair_ind; cbn [pairs_kept app].
  - intros _. now split.
  - intros [].
  - intros [Hxy Hl]. split; [ exact Hxy | now apply IH ].
Qed.

(** Lists of kept pairs, with or without one more byte, are fixed points
    of the list-level filter. *)
Lemma pairs_kept_fixed (l : list Z) :
  pairs_kept l ->
  grease_spec l = l /\ forall x, grease_spec (l ++ [x]) = l ++ [x].
Proof.
  induction l as [ | x | x y l IH ] using list_pair_ind; cbn [pairs_kept].
  - intros _. split; reflexivity.
  - intros [].
  - intros [Hxy Hl]. destruct (IH Hl) as [IH1 IH2].
    unfold is_grease in Hxy. split.
    + cbn [grease_spec]. rewrite Hxy. now rewrite IH1.
    + intros z. cbn [app grease_spec]. rewrite Hxy. now rewrite IH2.
Qed.

(** Two bytes copied from [input + ptr] are [input[ptr]] and
    [input[ptr + 1]]. *)
Lemma memcpy_two_at (m : Z -> Z) (off : Z) (input : list Z) (ptr i : Z) :
  0 <= ptr ->
  memcpy m off (skipn (Z.to_nat ptr) input) 2 i
  = memcpy m off [input_at input ptr; input_at input (ptr + 1)] 2 i.
Proof.
  intros Hp. unfold memcpy, input_at.
  destruct (Z.leb_spec off i); cbn [andb]; [ | reflexivity ].
  destruct (Z.ltb_spec i (off + 2)); [ | reflexivity ].
  rewrite nth_skipn.
  assert (Hc : i - off = 0 \/ i - off = 1) by lia.
  destruct Hc as [E | E]; rewrite E.
  - change (Z.to_nat 0) with 0%nat. cbn [nth]. f_equal. lia.
  - change (Z.to_nat 1) with 1%nat. cbn [nth]. f_equal. lia.
Qed.

(** The loop always leaves through its condition or [break] when the
    fuel covers the bytes still to read, and keeps the invariant. *)
Lemma grease_loop_inv (out0 : buffer) (input : list Z) (len : Z) :
  buffer_ok out0 -> len <= INT_MAX ->
  forall (fuel : nat) (ptr : Z) (o : buffer),
  0 <= ptr -> ptr <= Z.max 0 len -> len - ptr <= Z.of_nat fuel ->
  grease_inv out0 ptr o ->
  exists ptr' o',
    grease_loop fuel input len ptr o = Some (ptr', o') /\
    ptr <= ptr' /\ ptr' <= Z.max 0 len /\
    grease_inv out0 ptr' o'.
Proof.
  intros (Hd0 & Hds & Hsm) Hlen.
  pose proof SIZE_MOD_value as HS. pose proof INT_MAX_value as HI.
  induction fuel as [ | fuel IH ]; intros ptr o Hp Hpl Hfuel Hinv.
  - simpl. destruct (Z.ltb_spec ptr (len - 1)); [ lia | ].
    exists ptr, o. split; [ reflexivity | ]. split; [ lia | ]. now split.
  - cbn [grease_loop].
    destruct (Z.ltb_spec ptr (len - 1)) as [Hlt | Hge].
    2:{ exists ptr, o. split; [ reflexivity | ]. split; [ lia | ]. now split. }
    pose proof Hinv as (Is & Il & Iu & Ic & If & l & Ib & Ik).
    set (a := input_at input ptr). set (b := input_at input (ptr + 1)).
    destruct (negb (a =? b) || negb (Z.land a 0x0f =? 0x0a)) eqn:E.
    + destruct (Z.leb_spec (data o) (size_sub (size o) 2)) as [Hroom | Hfull].
      * assert (Hcap : 2 <= size out0 -> data o + 2 <= size out0).
        { intros H2. rewrite size_sub_small in Hroom by lia. lia. }
        assert (Hadd : size_add (data o) 2 = data o + 2).
        { apply size_add_small.
          destruct (Z_lt_le_dec (size out0) 2) as [Hs2 | Hs2];
            [ lia | specialize (Hcap Hs2); lia ]. }
        assert (Hab : is_grease a b = false).
        { unfold is_grease. rewrite <- negb_andb in E.
          now apply negb_true_iff in E. }
        set (o2 := mkbuf (size o)
                     (memcpy (area o) (data o) (skipn (Z.to_nat ptr) input) 2)
                     (size_add (data o) 2)).
        assert (Hbytes : chunk_bytes o2 = chunk_bytes o ++ [a; b]).
        { apply chunk_bytes_extend; unfold o2; cbn [size data area].
          - lia.
          - rewrite Hadd. reflexivity.
          - intros i Hi. unfold memcpy.
            destruct (Z.leb_spec (data o) i); [ lia | reflexivity ].
          - intros i Hi. change (len_of [a; b]) with 2 in Hi.
            rewrite memcpy_two_at by exact Hp. unfold memcpy.
            destruct (Z.leb_spec (data o) i); [ | lia ].
            destruct (Z.ltb_spec i (data o + 2)); [ | lia ].
            reflexivity. }
        destruct (IH (ptr + 2) o2)
          as (ptr' & o' & Hrun & Hle & Hmax & Hinv'); try lia.
        { unfold grease_inv. rewrite Hbytes. unfold o2.
          rewrite Hadd. cbn [size data area].
          split; [ exact Is | ]. split; [ lia | ]. split; [ lia | ].
          split; [ intros H2; specialize (Hcap H2); lia | ].
          split.
          - intros i Hi. unfold memcpy.
            destruct (Z.leb_spec (data o) i); cbn [andb].
            + destruct (Z.ltb_spec i (data o + 2)); [ lia | apply If; lia ].
            + apply If. lia.
          - exists (l ++ [a; b]). rewrite Ib, <- app_assoc.
            split; [ reflexivity | now apply pairs_kept_snoc ]. }
        exists ptr', o'. split; [ exact Hrun | ]. split; [ lia | ]. now split.
      * exists ptr, o. split; [ reflexivity | ]. split; [ lia | ]. now split.
    + destruct (IH (ptr + 2) o) as (ptr' & o' & Hrun & Hle & Hmax & Hinv');
        try lia.
      { unfold grease_inv. split; [ exact Is | ]. split; [ lia | ].
        split; [ lia | ]. split; [ exact Ic | ]. split; [ exact If | ].
        now exists l. }
      exists ptr', o'. split; [ exact Hrun | ]. split; [ lia | ]. now split.
Qed.

(** The trailing store keeps what the loop established and adds at most
    one byte after the kept pairs. *)
Lemma grease_tail_inv (out0 : buffer) (input : list Z) (len ptr : Z)
    (o : buffer) :
  buffer_ok out0 -> len <= INT_MAX ->
  0 <= ptr -> ptr <= Z.max 0 len ->
  grease_inv out0 ptr o ->
  let o' := grease_tail input len ptr o in
  size o' = size out0 /\
  data out0 <= data o' /\
  (2 <= size out0 -> data o' <= size out0) /\
  (forall i, i < data out0 \/ data o' <= i -> area o' i = area out0 i) /\
  exists l, chunk_bytes o' = chunk_bytes out0 ++ l /\ grease_spec l = l.
Proof.
  intros (Hd0 & Hds & Hsm) Hlen Hp Hpl (Is & Il & Iu & Ic & If & l & Ib & Ik).
  pose proof SIZE_MOD_value as HS. pose proof INT_MAX_value as HI.
  destruct (pairs_kept_fixed l Ik) as [Hfix Hfix1].
  cbv zeta. unfold grease_tail.
  destruct (Z.ltb_spec 0 (size_sub (size o) (data o))) as [Hroom | Hfull];
    cbn [andb].
  2:{ split; [ exact Is | ]. split; [ lia | ]. split; [ exact Ic | ].
      split; [ exact If | ]. now exists l. }
  destruct (Z.ltb_spec 0 (len - ptr)) as [Hmore | Hdone].
  2:{ split; [ exact Is | ]. split; [ lia | ]. split; [ exact Ic | ].
      split; [ exact If | ]. now exists l. }
  assert (Hcap : 2 <= size out0 -> data o + 1 <= size out0).
  { intros H2. specialize (Ic H2).
    rewrite size_sub_small in Hroom by lia. lia. }
  assert (Hadd : size_add (data o) 1 = data o + 1).
  { apply size_add_small.
    destruct (Z_lt_le_dec (size out0) 2) as [Hs2 | Hs2];
      [ lia | specialize (Hcap Hs2); lia ]. }
  rewrite Hadd. cbn [size data area].
  split; [ exact Is | ]. split; [ lia | ].
  split; [ exact Hcap | ].
  split.
  - intros i Hi. unfold store.
    destruct (Z.eqb_spec i (data o)); [ lia | apply If; lia ].
  - exists (l ++ [input_at input ptr]). split; [ | apply Hfix1 ].
    rewrite app_assoc, <- Ib.
    apply chunk_bytes_extend; cbn [size data area].
    + lia.
    + reflexivity.
    + intros i Hi. unfold store.
      destruct (Z.eqb_spec i (data o)); [ lia | reflexivity ].
    + intros i Hi. change (len_of [input_at input ptr]) with 1 in Hi.
      unfold store. destruct (Z.eqb_spec i (data o)) as [Ei | Ei]; [ | lia ].
      rewrite Ei, Z.sub_diag. reflexivity.
Qed.

(** The call returns for every input and chunk.  It leaves the capacity
    as it was, the length no smaller and, for a capacity of 2 or more,
    within the capacity; it stores only at offsets from the old length
    up to the new one; and what it appends is a fixed point of the
    list-level filter. *)
Lemma exclude_tls_grease_inv (input : list Z) (out : buffer) :
  buffer_ok out -> len_of input <= INT_MAX ->
  exists out',
    exclude_tls_grease input out = Some out' /\
    size out' = size out /\
    data out <= data out' /\
    (2 <= size out -> data out' <= size out) /\
    (forall i, i < data out \/ data out' <= i -> area out' i = area out i) /\
    exists l, chunk_bytes out' = chunk_bytes out ++ l /\ grease_spec l = l.
Proof.
  intros Hok Hlen. unfold exclude_tls_grease.
  pose proof (len_of_nonneg input) as Hnn.
  destruct (grease_loop_inv out input (len_of input) Hok Hlen
              (length input) 0 out) as (ptr & o & Hrun & Hle & Hmax & Hinv).
  - lia.
  - lia.
  - unfold len_of. lia.
  - unfold grease_inv. destruct Hok as (H0 & H1 & H2).
    split; [ reflexivity | ]. split; [ lia | ]. split; [ lia | ].
    split; [ lia | ]. split; [ reflexivity | ].
    exists []. rewrite app_nil_r. now split.
  - rewrite Hrun. eexists. split; [ reflexivity | ].
    exact (grease_tail_inv out input (len_of input) ptr o Hok Hlen Hle Hmax
             Hinv).
Qed.

(** ** The filter against its list-level description *)


(** The list-level filter is idempotent. *)
Lemma grease_spec_idempotent (l : list Z) :
  grease_spec (grease_spec l) = grease_spec l.
Proof.
  induction l as [ | a | a b l IH ] using list_pair_ind; try reflexivity.
  cbn [grease_spec].
  destruct ((a =? b) && (Z.land a 0x0f =? 0x0a)) eqn:E; [ exact IH | ].
  cbn [grease_spec]. rewrite E. now rewrite IH.
Qed.

Lemma grease_spec_length (l : list Z) :
  len_of (grease_spec l) <= len_of l.
Proof.
  induction l as [ | a | a b l IH ] using list_pair_ind;
    try (cbn [grease_spec]; lia).
  cbn [grease_spec]. unfold len_of in *.
  destruct ((a =? b) && (Z.land a 0x0f =? 0x0a)); cbn [length]; lia.
Qed.

Lemma input_at_middle (pre rest : list Z) (a : Z) :
  input_at (pre ++ a :: rest) (len_of pre) = a.
Proof.
  unfold input_at, len_of. rewrite Nat2Z.id. apply nth_middle.
Qed.

Lemma input_at_middle_next (pre rest : list Z) (a b : Z) :
  input_at (pre ++ a :: b :: rest) (len_of pre + 1) = b.
Proof.
  replace (pre ++ a :: b :: rest) with ((pre ++ [a]) ++ b :: rest)
    by (now rewrite <- app_assoc).
  replace (len_of pre + 1) with (len_of (pre ++ [a]))
    by (now rewrite len_of_app).
  apply input_at_middle.
Qed.

Lemma skipn_middle (pre rest : list Z) :
  skipn (Z.to_nat (len_of pre)) (pre ++ rest) = rest.
Proof.
  unfold len_of. rewrite Nat2Z.id.
  rewrite skipn_app, skipn_all, Nat.sub_diag. reflexivity.
Qed.

(** Copying two bytes only reads the first two of the source. *)
Lemma memcpy_first_two (m : Z -> Z) (off a b : Z) (rest : list Z) (i : Z) :
  memcpy m off (a :: b :: rest) 2 i = memcpy m off [a; b] (len_of [a; b]) i.
Proof.
  unfold memcpy. change (len_of [a; b]) with 2.
  destruct (Z.leb_spec off i); cbn [andb]; [ | reflexivity ].
  destruct (Z.ltb_spec i (off + 2)); [ | reflexivity ].
  assert (Hc : i - off = 0 \/ i - off = 1) by lia.
  destruct Hc as [E | E]; rewrite E; reflexivity.
Qed.

Lemma memcpy_nil (m : Z -> Z) (off i : Z) :
  memcpy m off [] (len_of (@nil Z)) i = m i.
Proof.
  unfold memcpy. change (len_of (@nil Z)) with 0.
  destruct (Z.leb_spec off i); cbn [andb]; [ | reflexivity ].
  destruct (Z.ltb_spec i (off + 0)); [ lia | reflexivity ].
Qed.

(** With room for the filtered bytes the call appends exactly
    [grease_spec] of the bytes still to read. *)
Lemma grease_loop_spec (rest : list Z) :
  forall (pre : list Z) (o : buffer) (fuel : nat),
  (length rest <= fuel)%nat ->
  0 <= data o ->
  data o + len_of (grease_spec rest) <= size o ->
  size o < SIZE_MOD ->
  exists ptr o1,
    grease_loop fuel (pre ++ rest) (len_of (pre ++ rest)) (len_of pre) o
      = Some (ptr, o1) /\
    let o' := grease_tail (pre ++ rest) (len_of (pre ++ rest)) ptr o1 in
    size o' = size o /\
    data o' = data o + len_of (grease_spec rest) /\
    forall i, area o' i
              = memcpy (area o) (data o) (grease_spec rest)
                       (len_of (grease_spec rest)) i.
Proof.
  pose proof SIZE_MOD_value as HS.
  induction rest as [ | a | a b rest IH ] using list_pair_ind;
    intros pre o fuel Hfuel Hd Hroom Hsm.
  - exists (len_of pre), o. rewrite app_nil_r.
    assert (Hrun : grease_loop fuel pre (len_of pre) (len_of pre) o
                   = Some (len_of pre, o)).
    { destruct fuel; cbn [grease_loop];
        destruct (Z.ltb_spec (len_of pre) (len_of pre - 1)); (lia || reflexivity). }
    split; [ exact Hrun | ]. cbv zeta. unfold grease_tail.
    rewrite Z.sub_diag. change (0 <? 0) with false. rewrite andb_false_r.
    cbn [grease_spec]. change (len_of (@nil Z)) with 0.
    split; [ reflexivity | ]. split; [ lia | ].
    intros i. symmetry. apply memcpy_nil.
  - exists (len_of pre), o.
    assert (Hlen : len_of (pre ++ [a]) = len_of pre + 1)
      by (now rewrite len_of_app).
    assert (Hrun : grease_loop fuel (pre ++ [a]) (len_of (pre ++ [a]))
                     (len_of pre) o = Some (len_of pre, o)).
    { rewrite Hlen.
      destruct fuel; cbn [grease_loop];
        destruct (Z.ltb_spec (len_of pre) (len_of pre + 1 - 1));
        (lia || reflexivity). }
    split; [ exact Hrun | ]. cbv zeta. unfold grease_tail.
    cbn [grease_spec] in *. change (len_of [a]) with 1 in *.
    rewrite Hlen, input_at_middle.
    rewrite size_sub_small, size_add_small by lia.
    destruct (Z.ltb_spec 0 (size o - data o)); [ | lia ].
    destruct (Z.ltb_spec 0 (len_of pre + 1 - len_of pre)); [ | lia ].
    cbn [andb size data area].
    split; [ reflexivity | ]. split; [ reflexivity | ].
    intros i. apply store_memcpy.
  - destruct fuel as [ | fuel ]; [ cbn [length] in Hfuel; lia | ].
    cbn [length] in Hfuel.
    assert (Hlen : len_of (pre ++ a :: b :: rest) = len_of pre + 2 + len_of rest).
    { rewrite len_of_app. unfold len_of. cbn [length]. lia. }
    pose proof (len_of_nonneg rest) as Hnn.
    pose proof (len_of_nonneg (grease_spec rest)) as Hgn.
    assert (Hpre2 : pre ++ a :: b :: rest = (pre ++ [a; b]) ++ rest)
      by (now rewrite <- app_assoc).
    assert (Hptr2 : len_of pre + 2 = len_of (pre ++ [a; b]))
      by (now rewrite len_of_app).
    cbn [grease_loop].
    destruct (Z.ltb_spec (len_of pre) (len_of (pre ++ a :: b :: rest) - 1));
      [ | lia ].
    rewrite input_at_middle, input_at_middle_next, skipn_middle.
    cbn [grease_spec] in Hroom |- *.
    destruct ((a =? b) && (Z.land a 0x0f =? 0x0a)) eqn:E.
    + assert (E' : negb (a =? b) || negb (Z.land a 0x0f =? 0x0a) = false).
      { apply andb_prop in E. destruct E as [E1 E2]. now rewrite E1, E2. }
      rewrite E'. rewrite Hpre2, Hptr2.
      apply (IH (pre ++ [a; b]) o fuel); lia.
    + assert (E' : negb (a =? b) || negb (Z.land a 0x0f =? 0x0a) = true).
      { rewrite <- negb_andb. now rewrite E. }
      rewrite E'.
      assert (Hl2 : len_of (a :: b :: grease_spec rest)
                    = 2 + len_of (grease_spec rest)).
      { unfold len_of. cbn [length]. lia. }
      rewrite Hl2 in Hroom |- *.
      rewrite size_sub_small, size_add_small by lia.
      destruct (Z.leb_spec (data o) (size o - 2)); [ | lia ].
      rewrite Hpre2, Hptr2.
      destruct (IH (pre ++ [a; b])
                  (mkbuf (size o)
                         (memcpy (area o) (data o) (a :: b :: rest) 2)
                         (data o + 2)) fuel)
        as (ptr & o1 & Hrun & Hs & Hdt & Ha);
        cbn [size data area]; try lia.
      exists ptr, o1. split; [ exact Hrun | ]. cbv zeta.
      cbn [size data area] in Hs, Hdt, Ha.
      split; [ exact Hs | ]. split; [ lia | ].
      intros i. rewrite Ha.
      rewrite (memcpy_ext _ (memcpy (area o) (data o) [a; b] (len_of [a; b])))
        by (intros j; apply memcpy_first_two).
      change (data o + 2) with (data o + len_of [a; b]).
      rewrite memcpy_app. rewrite <- Hl2. reflexivity.
Qed.

(** The call on a chunk with room for the filtered input. *)
Lemma exclude_tls_grease_spec (input : list Z) (out : buffer) :
  buffer_ok out ->
  data out + len_of (grease_spec input) <= size out ->
  exists out',
    exclude_tls_grease input out = Some out' /\
    size out' = size out /\
    data out' = data out + len_of (grease_spec input) /\
    chunk_bytes out' = chunk_bytes out ++ grease_spec input.
Proof.
  intros (Hd & Hds & Hsm) Hroom. unfold exclude_tls_grease.
  destruct (grease_loop_spec input [] out (length input) (Nat.le_refl _)
              Hd Hroom Hsm) as (ptr & o1 & Hrun & Hs & Hdt & Ha).
  cbn [app] in Hrun, Hs, Hdt, Ha. change (len_of (@nil Z)) with 0 in Hrun.
  rewrite Hrun. eexists. split; [ reflexivity | ].
  split; [ exact Hs | ]. split; [ exact Hdt | ].
  set (o' := grease_tail input (len_of input) ptr o1) in *.
  destruct o' as [sz m d]. cbn [size data area] in *. subst d.
  destruct out as [osz om od]. cbn [size data area] in *.
  apply chunk_bytes_app; [ exact Hd | | ].
  - intros i Hi. rewrite Ha. unfold memcpy.
    destruct (Z.leb_spec od i); [ lia | reflexivity ].
  - intros i Hi. rewrite Ha. unfold memcpy.
    destruct (Z.leb_spec od i); [ | lia ].
    destruct (Z.ltb_spec i (od + len_of (grease_spec input))); [ | lia ].
    reflexivity.
Qed.

Lemma chunk_bytes_data_0 (b : buffer) : data b = 0 -> chunk_bytes b = [].
Proof. intros H. unfold chunk_bytes. now rewrite H. Qed.

(** From capacity 2 on the call stays within the chunk: the invariant
    [length <= capacity] is kept and no offset at or above the capacity
    is stored to. *)
Lemma grease_within_capacity_from_2 (input : list Z) (out : buffer) :
  buffer_ok out -> len_of input <= INT_MAX -> 2 <= size out ->
  exists out',
    exclude_tls_grease input out = Some out' /\
    buffer_ok out' /\
    forall i, size out <= i -> area out' i = area out i.
Proof.
  intros Hok Hlen H2.
  destruct (exclude_tls_grease_inv input out Hok Hlen)
    as (out' & Hrun & Hs & Hd & Hc & Hf & _).
  specialize (Hc H2). destruct Hok as (H0 & H1 & Hm).
  exists out'. split; [ exact Hrun | ]. split.
  - unfold buffer_ok. rewrite Hs. lia.
  - intros i Hi. apply Hf. right. lia.
Qed.

(** Below capacity 2 the guard of the loop wraps around and lets every
    kept pair through: the pair is stored at the current length and the
    length ends above the capacity. *)
Lemma grease_small_capacity_overrun (a b : Z) (out : buffer) :
  buffer_ok out -> size out < 2 -> is_grease a b = false ->
  exists out',
    exclude_tls_grease [a; b] out = Some out' /\
    size out' = size out /\
    data out' = data out + 2 /\
    size out' < data out' /\
    area out' (data out) = a /\ area out' (data out + 1) = b.
Proof.
  intros (H0 & H1 & Hm) H2 Hab.
  pose proof SIZE_MOD_value as HS.
  assert (Hkeep : negb (a =? b) || negb (Z.land a 0x0f =? 0x0a) = true).
  { rewrite <- negb_andb. apply negb_true_iff. exact Hab. }
  unfold exclude_tls_grease. change (len_of [a; b]) with 2.
  cbn [length grease_loop]. change (0 <? 2 - 1) with true. cbv iota.
  change (input_at [a; b] 0) with a. change (input_at [a; b] (0 + 1)) with b.
  rewrite Hkeep.
  rewrite (size_sub_wrap (size out) 2) by lia.
  destruct (Z.leb_spec (data out) (size out - 2 + SIZE_MOD)); [ | lia ].
  change (0 + 2 <? 2 - 1) with false. cbv iota.
  unfold grease_tail. change (0 <? 2 - (0 + 2)) with false.
  rewrite andb_false_r. cbn [size data area].
  rewrite size_add_small by lia.
  eexists. split; [ reflexivity | ]. cbn [size data area].
  split; [ reflexivity | ]. split; [ reflexivity | ]. split; [ lia | ].
  unfold memcpy. change (skipn (Z.to_nat 0) [a; b]) with [a; b].
  destruct (Z.leb_spec (data out) (data out)); [ | lia ].
  destruct (Z.ltb_spec (data out) (data out + 2)); [ | lia ].
  destruct (Z.leb_spec (data out) (data out + 1)); [ | lia ].
  destruct (Z.ltb_spec (data out + 1) (data out + 2)); [ | lia ].
  cbn [andb]. rewrite Z.sub_diag.
  replace (data out + 1 - data out) with 1 by lia.
  split; reflexivity.
Qed.

(** C1: on a chunk of capacity 0 or 1 the capacity test
    [data <= size - 2] wraps around in [size_t] and succeeds, so a kept
    pair is stored beyond the capacity and the length ends above it: for
    the input [13 01] and an empty chunk of capacity 0 the call stores at
    offsets 0 and 1 and leaves length 2; for capacity 1 it stores at
    offsets 0 and 1 (the second beyond the capacity) and leaves
    length 2. *)
Theorem grease_overruns_small_capacity :
  (buffer_ok (empty_buffer 0) /\
   exists out',
     exclude_tls_grease [0x13; 0x01] (empty_buffer 0) = Some out' /\
     size out' = 0 /\ data out' = 2 /\ size out' < data out' /\
     area out' 0 = 0x13 /\ area out' 1 = 0x01 /\
     area (empty_buffer 0) 0 = 0) /\
  (buffer_ok (empty_buffer 1) /\
   exists out',
     exclude_tls_grease [0x13; 0x01] (empty_buffer 1) = Some out' /\
     size out' = 1 /\ data out' = 2 /\ size out' < data out' /\
     area out' 1 = 0x01 /\
     area (empty_buffer 1) 1 = 0).
Proof.
  split; (split; [ vm_compute; repeat split; congruence | ]);
    eexists; (split; [ vm_compute; reflexivity | ]);
    vm_compute; repeat split; congruence.
Qed.

(** C9: the filter is a fixed point on its own output.  Run on any
    input into an empty chunk, the call returns; with room for the whole
    filtered input the chunk then reads as the list-level filter of the
    input; and, whatever the capacity was, running the call again on the
    bytes [S] the chunk reads, into an empty chunk of capacity at least
    the length of [S], gives a chunk that reads [S]. *)
Theorem grease_fixed_point (input : list Z) (out1 : buffer) :
  buffer_ok out1 -> data out1 = 0 -> len_of input <= INT_MAX ->
  exists o1,
    exclude_tls_grease input out1 = Some o1 /\
    (len_of (grease_spec input) <= size out1 ->
     chunk_bytes o1 = grease_spec input) /\
    forall out2,
      buffer_ok out2 -> data out2 = 0 ->
      len_of (chunk_bytes o1) <= size out2 ->
      exists o2,
        exclude_tls_grease (chunk_bytes o1) out2 = Some o2 /\
        chunk_bytes o2 = chunk_bytes o1.
Proof.
  intros Hok Hd Hlen.
  destruct (exclude_tls_grease_inv input out1 Hok Hlen)
    as (o1 & Hrun & _ & _ & _ & _ & l & Hb & Hfix).
  rewrite (chunk_bytes_data_0 out1 Hd) in Hb. cbn [app] in Hb.
  exists o1. split; [ exact Hrun | ]. split.
  - intros Hroom.
    destruct (exclude_tls_grease_spec input out1 Hok) as (o & Ho & _ & _ & Hbo).
    + lia.
    + rewrite Hrun in Ho. injection Ho as <-.
      now rewrite Hbo, (chunk_bytes_data_0 out1 Hd).
  - intros out2 Hok2 Hd2 Hcap. rewrite Hb in Hcap |- *.
    destruct (exclude_tls_grease_spec l out2 Hok2) as (o2 & Hrun2 & _ & _ & Hb2).
    + rewrite Hfix. lia.
    + exists o2. split; [ exact Hrun2 | ].
      now rewrite Hb2, (chunk_bytes_data_0 out2 Hd2), Hfix.
Qed.

Lemma grease_fixed_point_witness :
  exists o1,
    exclude_tls_grease [0x0a; 0x0a; 0x13; 0x01; 0x1a; 0x1a; 0x2a]
                       (empty_buffer 8) = Some o1 /\
    exists o2,
      exclude_tls_grease (chunk_bytes o1) (empty_buffer 3) = Some o2 /\
      chunk_bytes o2 = chunk_bytes o1 /\ chunk_bytes o1 = [0x13; 0x01; 0x2a].
Proof.
  assert (Hok : buffer_ok (empty_buffer 8))
    by (vm_compute; repeat split; congruence).
  assert (Hlen : len_of [0x0a; 0x0a; 0x13; 0x01; 0x1a; 0x1a; 0x2a] <= INT_MAX)
    by (vm_compute; congruence).
  destruct (grease_fixed_point [0x0a; 0x0a; 0x13; 0x01; 0x1a; 0x1a; 0x2a]
              (empty_buffer 8) Hok eq_refl Hlen) as (o1 & Hrun & Hfull & Hagain).
  assert (Hb : chunk_bytes o1 = [0x13; 0x01; 0x2a])
    by (apply Hfull; vm_compute; congruence).
  exists o1. split; [ exact Hrun | ].
  destruct (Hagain (empty_buffer 3)) as (o2 & Hrun2 & Hb2).
  - vm_compute; repeat split; congruence.
  - reflexivity.
  - rewrite Hb. vm_compute; congruence.
  - exists o2. repeat split; assumption.
Defined.

(** C10: the filter appends.  For every input and every chunk that
    satisfies [length <= capacity] the call returns, keeps the capacity,
    leaves every byte below the initial length as it was and does not
    decrease the length, so the chunk reads as before followed by what
    was appended; with room for it, what is appended is the list-level
    filter of the input, and a second call appends after the first. *)
Theorem grease_appends (input : list Z) (out : buffer) :
  buffer_ok out -> len_of input <= INT_MAX ->
  exists out',
    exclude_tls_grease input out = Some out' /\
    size out' = size out /\
    data out <= data out' /\
    (forall i, i < data out -> area out' i = area out i) /\
    (exists appended, chunk_bytes out' = chunk_bytes out ++ appended) /\
    (data out + len_of (grease_spec input) <= size out ->
     chunk_bytes out' = chunk_bytes out ++ grease_spec input) /\
    (forall input2,
       data out + len_of (grease_spec input) + len_of (grease_spec input2)
         <= size out ->
       exists out'',
         exclude_tls_grease input2 out' = Some out'' /\
         chunk_bytes out''
         = chunk_bytes out ++ grease_spec input ++ grease_spec input2).
Proof.
  intros Hok Hlen.
  destruct (exclude_tls_grease_inv input out Hok Hlen)
    as (out' & Hrun & Hs & Hd & _ & Hf & l & Hb & _).
  exists out'. split; [ exact Hrun | ]. split; [ exact Hs | ].
  split; [ exact Hd | ]. split; [ intros i Hi; apply Hf; now left | ].
  split; [ now exists l | ].
  assert (Hspec : data out + len_of (grease_spec input) <= size out ->
                  data out' = data out + len_of (grease_spec input) /\
                  chunk_bytes out' = chunk_bytes out ++ grease_spec input).
  { intros Hroom.
    destruct (exclude_tls_grease_spec input out Hok Hroom)
      as (o & Ho & _ & Hdo & Hbo).
    rewrite Hrun in Ho. injection Ho as <-. now split. }
  split; [ intros Hroom; now apply Hspec | ].
  intros input2 Hroom.
  pose proof (len_of_nonneg (grease_spec input2)) as Hnn.
  destruct Hspec as [Hd' Hb']; [ lia | ].
  destruct (exclude_tls_grease_spec input2 out') as (o2 & Hrun2 & _ & _ & Hb2).
  - destruct Hok as (H0 & H1 & H2). unfold buffer_ok. rewrite Hs. lia.
  - rewrite Hs, Hd'. lia.
  - exists o2. split; [ exact Hrun2 | ].
    now rewrite Hb2, Hb', <- app_assoc.
Qed.

Lemma grease_appends_witness :
  exists out',
    exclude_tls_grease [0x13; 0x01; 0x1a; 0x1a; 0x2a]
      (mkbuf 8 (memcpy zero_area 0 [0x41; 0x42] 2) 2) = Some out' /\
    chunk_bytes out' = [0x41; 0x42; 0x13; 0x01; 0x2a].
Proof.
  destruct (grease_appends [0x13; 0x01; 0x1a; 0x1a; 0x2a]
              (mkbuf 8 (memcpy zero_area 0 [0x41; 0x42] 2) 2))
    as (out' & Hrun & _ & _ & _ & _ & Hb & _).
  - vm_compute; repeat split; congruence.
  - vm_compute; congruence.
  - exists out'. split; [ exact Hrun | ].
    apply Hb. vm_compute; congruence.
Defined.

(** * Further properties *)

(** ** Scalar extractors *)

Lemma memcpy_above (m : Z -> Z) (src : list Z) (n i : Z) :
  n <= i -> memcpy m 0 src n i = m i.
Proof.
  intros H. unfold memcpy.
  destruct (Z.leb_spec 0 i); cbn [andb]; [ | reflexivity ].
  destruct (Z.ltb_spec i (0 + n)); [ lia | reflexivity ].
Qed.

(** X1: the serial extractor on a certificate that has a serial number
    of [L] bytes.  The capacity is kept.  When [L] exceeds the capacity
    the result is -1 and the chunk is untouched; otherwise the result is
    1, the length is [L], the chunk reads as the raw serial bytes, and no
    offset from [L] on was stored to. *)
Theorem get_serial_outcomes (crt : X509) (serial : ASN1_STRING)
    (out : buffer) :
  X509_get_serialNumber crt = Some serial ->
  asn1_ok serial ->
  let r := ssl_sock_get_serial crt out in
  let L := asn1_length serial in
  size (snd r) = size out /\
  (size out < L -> r = (-1, out)) /\
  (L <= size out ->
     fst r = 1 /\ data (snd r) = L /\
     chunk_bytes (snd r) = asn1_data serial /\
     forall i, L <= i -> area (snd r) i = area out i).
Proof.
  intros Hs [Hlen Hmax] r L. subst r L.
  pose proof (len_of_nonneg (asn1_data serial)) as Hnn.
  unfold ssl_sock_get_serial. rewrite Hs.
  rewrite to_size_t_small by lia.
  destruct (Z.ltb_spec (size out) (asn1_length serial)) as [Hsmall | Hfit];
    cbn [fst snd size data area].
  - split; [ reflexivity | ]. split; [ reflexivity | lia ].
  - split; [ reflexivity | ]. split; [ lia | ]. intros _.
    split; [ reflexivity | ]. split; [ reflexivity | ].
    split.
    + rewrite Hlen. apply chunk_bytes_memcpy.
    + intros i Hi. now apply memcpy_above.
Qed.

Lemma get_serial_outcomes_witness :
  outcome (ssl_sock_get_serial
             (mkx509 None (Some (mkasn1 3 2 [0x01; 0xff; 0x7f])) 0 [])
             (mkbuf 4 zero_area 1))
  = (1, [0x01; 0xff; 0x7f]).
Proof.
  destruct (get_serial_outcomes
              (mkx509 None (Some (mkasn1 3 2 [0x01; 0xff; 0x7f])) 0 [])
              (mkasn1 3 2 [0x01; 0xff; 0x7f]) (mkbuf 4 zero_area 1) eq_refl)
    as (_ & _ & Hfit).
  - split; [ reflexivity | vm_compute; congruence ].
  - destruct Hfit as (Hr & _ & Hb & _); [ vm_compute; congruence | ].
    unfold outcome. now rewrite Hr, Hb.
Defined.

(** X2: the DER encoder on a certificate whose sizing call announces
    [len > 0] bytes and whose encoding has that many bytes.  When [len]
    exceeds the capacity the result is -1 and the chunk is untouched;
    otherwise the result is 1, the length is exactly the announced
    [len], the chunk reads as the encoding, and no offset from [len] on
    was stored to. *)
Theorem crt2der_outcomes (crt : X509) (out : buffer) :
  0 < i2d_X509_len crt <= INT_MAX ->
  i2d_X509_len crt = len_of (i2d_X509_der crt) ->
  let r := ssl_sock_crt2der crt out in
  let len := i2d_X509_len crt in
  size (snd r) = size out /\
  (size out < len -> r = (-1, out)) /\
  (len <= size out ->
     fst r = 1 /\ data (snd r) = len /\
     chunk_bytes (snd r) = i2d_X509_der crt /\
     forall i, len <= i -> area (snd r) i = area out i).
Proof.
  intros Hpos Hlen r len. subst r len.
  unfold ssl_sock_crt2der.
  destruct (Z.leb_spec (i2d_X509_len crt) 0); [ lia | ].
  rewrite to_size_t_small by lia.
  destruct (Z.ltb_spec (size out) (i2d_X509_len crt)) as [Hsmall | Hfit];
    cbn [fst snd size data area].
  - split; [ reflexivity | ]. split; [ reflexivity | lia ].
  - split; [ reflexivity | ]. split; [ lia | ]. intros _.
    split; [ reflexivity | ]. split; [ reflexivity | ].
    split.
    + rewrite Hlen. apply chunk_bytes_memcpy.
    + intros i Hi. now apply memcpy_above.
Qed.

Lemma crt2der_outcomes_witness :
  outcome (ssl_sock_crt2der (mkx509 None None 4 [0x30; 0x02; 0x05; 0x00])
                            (empty_buffer 4))
  = (1, [0x30; 0x02; 0x05; 0x00]).
Proof.
  destruct (crt2der_outcomes (mkx509 None None 4 [0x30; 0x02; 0x05; 0x00])
              (empty_buffer 4)) as (_ & _ & Hfit).
  - vm_compute. split; congruence.
  - reflexivity.
  - destruct Hfit as (Hr & _ & Hb & _); [ vm_compute; congruence | ].
    unfold outcome. now rewrite Hr, Hb.
Defined.

(** ** Validity time extractor, continued *)

Lemma gentime_accepted_dec (tm : ASN1_STRING) :
  {gentime_accepted tm} + {~ gentime_accepted tm}.
Proof.
  unfold gentime_accepted.
  destruct (Z.eq_dec (asn1_type tm) V_ASN1_GENERALIZEDTIME);
    [ | right; tauto ].
  destruct (Z_le_dec 12 (asn1_length tm)); [ | right; tauto ].
  destruct (list_eq_dec Z.eq_dec (firstn 2 (asn1_data tm))
              (bytes_of_string "20")); [ left; tauto | right; tauto ].
Qed.

Lemma utctime_accepted_dec (tm : ASN1_STRING) :
  {utctime_accepted tm} + {~ utctime_accepted tm}.
Proof.
  unfold utctime_accepted.
  destruct (Z.eq_dec (asn1_type tm) V_ASN1_UTCTIME); [ | right; tauto ].
  destruct (Z_le_dec 10 (asn1_length tm)); [ | right; tauto ].
  destruct (Z_lt_dec (nth 0 (asn1_data tm) 0) (char_code "5"));
    [ left; tauto | right; tauto ].
Qed.

(** X3: whatever the time value, the time extractor keeps the capacity
    and returns -1, 0 or 1.  Unless it returns 1 the chunk is untouched.
    When it returns 1 the new length is at least 10, at most the
    capacity, and no offset from the new length on was stored to. *)
Theorem get_time_within_capacity (tm : ASN1_STRING) (out : buffer) :
  asn1_ok tm ->
  let r := ssl_sock_get_time tm out in
  size (snd r) = size out /\
  (fst r = -1 \/ fst r = 0 \/ fst r = 1) /\
  (fst r <> 1 -> snd r = out) /\
  (fst r = 1 ->
     10 <= data (snd r) <= size out /\
     forall i, data (snd r) <= i -> area (snd r) i = area out i).
Proof.
  intros Hok r. subst r. pose proof Hok as [Hlen Hmax].
  destruct (gentime_accepted_dec tm) as [Hg | Hg].
  - rewrite (get_time_gentime tm out Hok Hg).
    destruct Hg as (_ & H12 & _).
    assert (Hsk : len_of (skipn 2 (asn1_data tm)) = asn1_length tm - 2).
    { rewrite len_of_skipn; unfold len_of in *; lia. }
    rewrite Hsk.
    destruct (Z.ltb_spec (size out) (asn1_length tm - 2));
      cbn [fst snd size data area].
    + repeat split; auto; intros; lia.
    + split; [ reflexivity | ]. split; [ auto | ].
      split; [ intros Hne; congruence | ]. intros _.
      split; [ lia | ]. intros i Hi. now apply memcpy_above.
  - destruct (utctime_accepted_dec tm) as [Hu | Hu].
    + rewrite (get_time_utctime tm out Hok Hu).
      destruct Hu as (_ & H10 & _). rewrite <- Hlen.
      destruct (Z.ltb_spec (size out) (asn1_length tm));
        cbn [fst snd size data area].
      * repeat split; auto; intros; lia.
      * split; [ reflexivity | ]. split; [ auto | ].
        split; [ intros Hne; congruence | ]. intros _.
        split; [ lia | ]. intros i Hi. now apply memcpy_above.
    + rewrite (get_time_rejected tm out Hok Hg Hu). cbn [fst snd].
      repeat split; auto; intros; lia.
Qed.

Lemma get_time_within_capacity_witness :
  let tm := mkasn1 15 V_ASN1_GENERALIZEDTIME
                   (bytes_of_string "20260101000000Z") in
  data (snd (ssl_sock_get_time tm (empty_buffer 13))) <= 13.
Proof.
  intros tm.
  assert (Hok : asn1_ok tm) by (split; [ reflexivity | vm_compute; congruence ]).
  destruct (get_time_within_capacity tm (empty_buffer 13) Hok)
    as (_ & _ & _ & H1).
  destruct H1 as [[_ Hle] _]; [ reflexivity | exact Hle ].
Defined.

(** X4: a UTC time the extractor accepts and the generalized time made
    of the text [20] followed by the same bytes give the same result and
    the same chunk: the century prefix is all that is dropped. *)
Theorem get_time_century_prefix (u : list Z) (out : buffer) :
  let utc := mkasn1 (len_of u) V_ASN1_UTCTIME u in
  let gen := mkasn1 (len_of u + 2) V_ASN1_GENERALIZEDTIME
                    (bytes_of_string "20" ++ u) in
  len_of u + 2 <= INT_MAX ->
  utctime_accepted utc ->
  let ru := ssl_sock_get_time utc out in
  let rg := ssl_sock_get_time gen out in
  fst rg = fst ru /\
  size (snd rg) = size (snd ru) /\
  data (snd rg) = data (snd ru) /\
  (forall i, area (snd rg) i = area (snd ru) i) /\
  chunk_bytes (snd rg) = chunk_bytes (snd ru).
Proof.
  intros utc gen Hmax Hu ru rg. subst ru rg.
  assert (Hoku : asn1_ok utc) by (split; [ reflexivity | simpl; lia ]).
  assert (Hokg : asn1_ok gen).
  { split; [ | exact Hmax ]. unfold gen. cbn [asn1_length asn1_data].
    rewrite len_of_app. change (len_of (bytes_of_string "20")) with 2. lia. }
  assert (Hg : gentime_accepted gen).
  { destruct Hu as (_ & H10 & _). cbn [utc asn1_length] in H10.
    split; [ reflexivity | ].
    split; [ cbn [gen asn1_length]; lia | reflexivity ]. }
  rewrite (get_time_gentime gen out Hokg Hg),
          (get_time_utctime utc out Hoku Hu).
  change (skipn 2 (asn1_data gen)) with u.
  change (asn1_data utc) with u.
  change (asn1_length gen) with (len_of u + 2).
  change (asn1_length utc) with (len_of u).
  replace (len_of u + 2 - 2) with (len_of u) by lia.
  destruct (size out <? len_of u); repeat split.
Qed.

Lemma get_time_century_prefix_witness :
  outcome (ssl_sock_get_time
             (mkasn1 15 V_ASN1_GENERALIZEDTIME
                     (bytes_of_string "20260101000000Z")) (empty_buffer 16))
  = outcome (ssl_sock_get_time
               (mkasn1 13 V_ASN1_UTCTIME (bytes_of_string "260101000000Z"))
               (empty_buffer 16)).
Proof.
  destruct (get_time_century_prefix (bytes_of_string "260101000000Z")
              (empty_buffer 16)) as (Hr & _ & _ & _ & Hb).
  - vm_compute; congruence.
  - repeat split; vm_compute; congruence.
  - unfold outcome. apply (f_equal2 pair); [ exact Hr | exact Hb ].
Defined.

(** ** Distinguished name entry locator, continued *)

Lemma get_entry_view (pos : Z) (a pre rest : X509_NAME)
    (ne : X509_NAME_ENTRY) :
  dn_view pos a = pre ++ ne :: rest ->
  X509_NAME_get_entry a
    (if pos <? 0 then X509_NAME_entry_count a - 1 - len_of pre
     else len_of pre) = ne.
Proof.
  intros Hv. unfold dn_view in Hv.
  destruct (pos <? 0).
  - assert (Hl : length a = (length pre + S (length rest))%nat).
    { rewrite <- (length_rev a), Hv, length_app. reflexivity. }
    unfold X509_NAME_get_entry, X509_NAME_entry_count, len_of.
    replace (Z.to_nat (Z.of_nat (length a) - 1 - Z.of_nat (length pre)))
      with (length a - S (length pre))%nat by lia.
    rewrite <- rev_nth by lia. rewrite Hv. apply nth_middle.
  - subst a. apply get_entry_middle.
Qed.

(** The index loop visits the entries in the order of [dn_view]. *)
Lemma dn_entry_loop_scan (a : X509_NAME) (entry : buffer) (pos : Z)
    (out : buffer) (rest : X509_NAME) :
  forall (pre : X509_NAME) (cur : Z),
  dn_view pos a = pre ++ rest ->
  dn_entry_loop (length rest) a entry pos (X509_NAME_entry_count a)
                (len_of pre) cur out
  = dn_entry_scan entry pos rest cur out.
Proof.
  induction rest as [ | ne rest IH ]; intros pre cur Hv; [ reflexivity | ].
  cbn [length dn_entry_loop dn_entry_scan].
  rewrite (get_entry_view pos a pre rest ne Hv).
  assert (Hnext : dn_view pos a = (pre ++ [ne]) ++ rest)
    by (now rewrite <- app_assoc).
  assert (Hi : len_of pre + 1 = len_of (pre ++ [ne]))
    by (now rewrite len_of_app).
  unfold dn_entry_matches.
  destruct (chunk_strcasecmp entry
              (entry_name (X509_NAME_ENTRY_get_object ne)) =? 0);
    cbn [negb].
  - destruct ((if pos <? 0 then cur - 1 else cur + 1) =? pos); cbn [negb].
    + reflexivity.
    + rewrite Hi. now apply IH.
  - rewrite Hi. now apply IH.
Qed.

Lemma dn_entry_scan_forward (entry : buffer) (pos : Z) (out : buffer)
    (rest : X509_NAME) :
  forall cur, 0 <= cur < pos ->
  dn_entry_scan entry pos rest cur out
  = match nth_error (filter (dn_entry_matches entry) rest)
                    (Z.to_nat (pos - cur - 1)) with
    | Some ne => dn_deliver ne out
    | None => (0, out)
    end.
Proof.
  induction rest as [ | ne rest IH ]; intros cur Hc.
  - cbn [dn_entry_scan filter]. now destruct (Z.to_nat (pos - cur - 1)).
  - cbn [dn_entry_scan filter].
    destruct (dn_entry_matches entry ne); [ | now apply IH ].
    destruct (Z.ltb_spec pos 0); [ lia | ].
    destruct (Z.eqb_spec (cur + 1) pos) as [E | N].
    + replace (pos - cur - 1) with 0 by lia. reflexivity.
    + rewrite IH by lia.
      replace (Z.to_nat (pos - cur - 1))
        with (S (Z.to_nat (pos - (cur + 1) - 1))) by lia.
      reflexivity.
Qed.

Lemma dn_entry_scan_backward (entry : buffer) (pos : Z) (out : buffer)
    (rest : X509_NAME) :
  forall cur, pos < cur <= 0 ->
  dn_entry_scan entry pos rest cur out
  = match nth_error (filter (dn_entry_matches entry) rest)
                    (Z.to_nat (cur - pos - 1)) with
    | Some ne => dn_deliver ne out
    | None => (0, out)
    end.
Proof.
  induction rest as [ | ne rest IH ]; intros cur Hc.
  - cbn [dn_entry_scan filter]. now destruct (Z.to_nat (cur - pos - 1)).
  - cbn [dn_entry_scan filter].
    destruct (dn_entry_matches entry ne); [ | now apply IH ].
    destruct (Z.ltb_spec pos 0); [ | lia ].
    destruct (Z.eqb_spec (cur - 1) pos) as [E | N].
    + replace (cur - pos - 1) with 0 by lia. reflexivity.
    + rewrite IH by lia.
      replace (Z.to_nat (cur - pos - 1))
        with (S (Z.to_nat (cur - 1 - pos - 1))) by lia.
      reflexivity.
Qed.

Lemma dn_entry_scan_zero (entry : buffer) (out : buffer) (rest : X509_NAME) :
  forall cur, 0 <= cur -> dn_entry_scan entry 0 rest cur out = (0, out).
Proof.
  induction rest as [ | ne rest IH ]; intros cur Hc; [ reflexivity | ].
  cbn [dn_entry_scan]. change (0 <? 0) with false. cbv iota.
  destruct (dn_entry_matches entry ne); [ | now apply IH ].
  destruct (Z.eqb_spec (cur + 1) 0); [ lia | apply IH; lia ].
Qed.

(** The locator computes the selection of [dn_select]. *)
Lemma dn_entry_as_selection (a : X509_NAME) (entry : buffer) (pos : Z)
    (out : buffer) :
  ssl_sock_get_dn_entry a entry pos out
  = match dn_select a entry pos with
    | Some ne => dn_deliver ne (set_data out 0)
    | None => (0, set_data out 0)
    end.
Proof.
  unfold ssl_sock_get_dn_entry.
  replace (Z.to_nat (X509_NAME_entry_count a)) with (length (dn_view pos a)).
  2:{ unfold dn_view, X509_NAME_entry_count, len_of.
      destruct (pos <? 0); [ rewrite length_rev | ]; lia. }
  change 0 with (len_of (@nil X509_NAME_ENTRY)) at 1.
  rewrite (dn_entry_loop_scan a entry pos (set_data out 0) (dn_view pos a) [] 0)
    by reflexivity.
  unfold dn_select, dn_view, dn_matches.
  destruct (Z.ltb_spec 0 pos) as [Hpos | Hnpos].
  - destruct (Z.ltb_spec pos 0); [ lia | ].
    rewrite dn_entry_scan_forward by lia.
    replace (pos - 0 - 1) with (pos - 1) by lia.
    reflexivity.
  - destruct (Z.ltb_spec pos 0) as [Hneg | Hz].
    + rewrite dn_entry_scan_backward by lia.
      replace (0 - pos - 1) with (- pos - 1) by lia.
      rewrite filter_rev.
      reflexivity.
    + assert (pos = 0) by lia. subst pos.
      apply dn_entry_scan_zero. lia.
Qed.

(** X5: the entry locator is selection among the matching entries.  For
    every name, filter, position and chunk the call first resets the
    length to 0 and then returns what copying the value of the entry
    designated by [dn_select] returns (1, or -1 with the length still 0
    when the value exceeds the capacity), and 0 with length 0 when the
    position designates no entry; position 0 designates none. *)
Theorem dn_entry_selects (a : X509_NAME) (entry : buffer) (pos : Z)
    (out : buffer) :
  ssl_sock_get_dn_entry a entry pos out
  = match dn_select a entry pos with
    | Some ne => dn_deliver ne (set_data out 0)
    | None => (0, set_data out 0)
    end.
Proof. apply dn_entry_as_selection. Qed.

Lemma dn_select_in (a : X509_NAME) (entry : buffer) (pos : Z)
    (ne : X509_NAME_ENTRY) :
  dn_select a entry pos = Some ne ->
  In ne a /\ dn_entry_matches entry ne = true.
Proof.
  unfold dn_select, dn_matches. intros H.
  assert (Hin : In ne (filter (dn_entry_matches entry) a)).
  { destruct (0 <? pos).
    - now apply nth_error_In in H.
    - destruct (pos <? 0); [ | discriminate H ].
      apply nth_error_In in H. now apply in_rev in H. }
  now apply filter_In in Hin.
Qed.

(** X6: what the entry locator leaves in the chunk.  The capacity is
    kept and the result is -1, 0 or 1.  Unless the result is 1 the chunk
    is the one given with its length reset to 0.  When the result is 1
    the chunk reads as the value of an entry of the name whose name
    matches the filter, the length is within the capacity, and no
    offset from the new length on was stored to. *)
Theorem dn_entry_found_value (a : X509_NAME) (entry : buffer) (pos : Z)
    (out : buffer) :
  Forall (fun ne => asn1_ok (X509_NAME_ENTRY_get_data ne)) a ->
  let r := ssl_sock_get_dn_entry a entry pos out in
  size (snd r) = size out /\
  (fst r = -1 \/ fst r = 0 \/ fst r = 1) /\
  (fst r <> 1 -> snd r = set_data out 0) /\
  (fst r = 1 ->
     (exists ne, In ne a /\ dn_entry_matches entry ne = true /\
                 chunk_bytes (snd r)
                 = asn1_data (X509_NAME_ENTRY_get_data ne)) /\
     data (snd r) <= size out /\
     forall i, data (snd r) <= i -> area (snd r) i = area out i).
Proof.
  intros Hok r. subst r. rewrite dn_entry_as_selection.
  destruct (dn_select a entry pos) as [ne | ] eqn:Hsel.
  2:{ cbn [fst snd set_data size]. repeat split; auto; intros; lia. }
  destruct (dn_select_in a entry pos ne Hsel) as [Hin Hm].
  rewrite Forall_forall in Hok. destruct (Hok ne Hin) as [Hlen Hmax].
  pose proof (len_of_nonneg (asn1_data (X509_NAME_ENTRY_get_data ne))) as Hnn.
  unfold dn_deliver. cbn [set_data size area].
  rewrite to_size_t_small by lia.
  destruct (Z.ltb_spec (size out)
              (asn1_length (X509_NAME_ENTRY_get_data ne)));
    cbn [fst snd size data area].
  - repeat split; auto; intros; lia.
  - split; [ reflexivity | ]. split; [ auto | ].
    split; [ intros Hne; congruence | ]. intros _.
    split; [ | split; [ lia | intros i Hi; now apply memcpy_above ] ].
    exists ne. split; [ exact Hin | ]. split; [ exact Hm | ].
    rewrite Hlen. apply chunk_bytes_memcpy.
Qed.

Lemma dn_entry_found_value_witness :
  let r := ssl_sock_get_dn_entry dn_abc (chunk_of_string "o") (-1)
             (mkbuf 4 zero_area 3) in
  fst r = 1 /\ data (snd r) <= 4.
Proof.
  intros r.
  assert (Hok : Forall (fun ne => asn1_ok (X509_NAME_ENTRY_get_data ne)) dn_abc).
  { repeat constructor; vm_compute; congruence. }
  destruct (dn_entry_found_value dn_abc (chunk_of_string "o") (-1)
              (mkbuf 4 zero_area 3) Hok) as (_ & _ & _ & H1).
  destruct H1 as (_ & Hle & _); [ reflexivity | ].
  split; [ reflexivity | exact Hle ].
Defined.

(** ** Oneline formatter, continued *)

Lemma dn_oneline_loop_frame (rest : X509_NAME) :
  forall (pre : X509_NAME) (out : buffer),
  Forall entry_ok rest ->
  0 <= data out ->
  data out + len_of (oneline_text rest) <= INT_MAX ->
  let r := dn_oneline_loop (length rest) (pre ++ rest) (len_of pre)
                           (data out) (data out) out in
  data out <= data (snd r) /\
  forall i, data (snd r) <= i -> area (snd r) i = area out i.
Proof.
  induction rest as [ | ne rest IH ]; intros pre out Hok Hd Hmax.
  - simpl. split; [ lia | reflexivity ].
  - inversion Hok as [ | ? ? Hne Hrest ]; subst.
    rewrite oneline_text_cons, len_of_app in Hmax.
    pose proof (oneline_entry_length_pos ne) as Hpos.
    pose proof (len_of_nonneg (oneline_text rest)) as Hnn.
    cbn [length dn_oneline_loop].
    rewrite get_entry_middle, <- (oneline_entry_length ne Hne).
    rewrite <- !Z.add_assoc, (Z.add_assoc 1), (Z.add_assoc (1 + _)).
    rewrite <- (oneline_entry_length ne Hne).
    rewrite to_size_t_small by lia.
    destruct (Z.ltb_spec (size out) (data out + len_of (oneline_entry ne))).
    + simpl. split; [ lia | reflexivity ].
    + set (out1 := mkbuf (size out)
                     (oneline_put (area out) (data out)
                        (entry_name (X509_NAME_ENTRY_get_object ne))
                        (asn1_data (X509_NAME_ENTRY_get_data ne))
                        (asn1_length (X509_NAME_ENTRY_get_data ne)))
                     (data out + len_of (oneline_entry ne))).
      specialize (IH (pre ++ [ne]) out1 Hrest).
      replace (len_of pre + 1) with (len_of (pre ++ [ne]))
        by (rewrite len_of_app; reflexivity).
      replace (pre ++ ne :: rest) with ((pre ++ [ne]) ++ rest)
        by (now rewrite <- app_assoc).
      change (data out + len_of (oneline_entry ne)) with (data out1).
      destruct IH as (Hle & Hframe); [ simpl; lia | simpl; lia | ].
      assert (Hd1 : data out1 = data out + len_of (oneline_entry ne))
        by reflexivity.
      split; [ lia | ].
      intros i Hi. rewrite Hframe by exact Hi.
      unfold out1. cbn [area]. rewrite oneline_put_memcpy by exact Hne.
      unfold memcpy.
      destruct (Z.leb_spec (data out) i); cbn [andb]; [ | reflexivity ].
      destruct (Z.ltb_spec i (data out + len_of (oneline_entry ne)));
        [ lia | reflexivity ].
Qed.

Lemma oneline_text_firstn_prefix (a : X509_NAME) (k : nat) :
  oneline_text a
  = oneline_text (firstn k a) ++ oneline_text (skipn k a).
Proof.
  unfold oneline_text. rewrite <- concat_app, <- map_app.
  now rewrite firstn_skipn.
Qed.

(** X7: the oneline formatter stays within the chunk.  For every name
    and every capacity the result is -1, 0 or 1, the final length is at
    most the capacity, no offset from the final length on was stored
    to, and the chunk reads as a prefix of the full text of the name. *)
Theorem dn_oneline_within_capacity (a : X509_NAME) (out : buffer) :
  Forall entry_ok a ->
  len_of (oneline_text a) <= INT_MAX ->
  0 <= size out ->
  let r := ssl_sock_get_dn_oneline a out in
  (fst r = -1 \/ fst r = 0 \/ fst r = 1) /\
  0 <= data (snd r) <= size out /\
  (forall i, data (snd r) <= i -> area (snd r) i = area out i) /\
  exists rest, oneline_text a = chunk_bytes (snd r) ++ rest.
Proof.
  intros Hok Hmax Hsz r. subst r.
  rewrite dn_oneline_unfold.
  pose proof (dn_oneline_loop_spec a [] (set_data out 0) Hok) as Hloop.
  pose proof (dn_oneline_loop_frame a [] (set_data out 0) Hok) as Hfr.
  cbn [set_data data size] in Hloop, Hfr. cbn [set_data data size].
  specialize (Hloop (Z.le_refl 0) Hmax). specialize (Hfr (Z.le_refl 0) Hmax).
  cbv zeta in Hloop, Hfr |- *.
  pose proof (oneline_fit_spec a (size out) 0) as Hfit. cbv zeta in Hfit.
  set (k := oneline_fit (size out) 0 a) in *.
  set (r := dn_oneline_loop (length a) ([] ++ a) (len_of (@nil X509_NAME_ENTRY))
              0 0 (set_data out 0)) in *.
  destruct Hloop as (Hs & Hc & Hd & Hb). destruct Hfr as (Hge & Hframe).
  destruct Hfit as (_ & F2 & _). specialize (F2 Hsz).
  change (chunk_bytes (set_data out 0)) with (@nil Z) in Hb. cbn [app] in Hb.
  assert (Hres : forall c : Z, (fst (c, snd r) = c) /\
            0 <= data (snd (c, snd r)) <= size out /\
            (forall i, data (snd (c, snd r)) <= i ->
                       area (snd (c, snd r)) i = area out i) /\
            exists rest, oneline_text a = chunk_bytes (snd (c, snd r)) ++ rest).
  { intros c. cbn [fst snd]. split; [ reflexivity | ]. split; [ lia | ].
    split; [ exact Hframe | ].
    exists (oneline_text (skipn k a)). rewrite Hb.
    apply oneline_text_firstn_prefix. }
  destruct (fst r).
  - destruct (data (snd r) =? 0).
    + destruct (Hres 0) as (E & H1 & H2 & H3). rewrite E. auto.
    + destruct (Hres 1) as (E & H1 & H2 & H3). rewrite E. auto.
  - destruct (Hres (-1)) as (E & H1 & H2 & H3). rewrite E. auto.
Qed.

Lemma dn_oneline_within_capacity_witness :
  data (snd (ssl_sock_get_dn_oneline dn_abc (mkbuf 12 zero_area 7))) <= 12.
Proof.
  assert (Hok : Forall entry_ok dn_abc) by (repeat constructor).
  assert (Hmax : len_of (oneline_text dn_abc) <= INT_MAX)
    by (vm_compute; congruence).
  assert (Hsz : 0 <= size (mkbuf 12 zero_area 7))
    by (vm_compute; congruence).
  destruct (dn_oneline_within_capacity dn_abc (mkbuf 12 zero_area 7)
              Hok Hmax Hsz) as (_ & [_ Hle] & _).
  exact Hle.
Defined.

(** ** RFC2253 formatter *)

Lemma chunk_bytes_memcpy_firstn (s : Z) (m : Z -> Z) (src : list Z) (n : Z) :
  0 <= n <= len_of src ->
  chunk_bytes (mkbuf s (memcpy m 0 src n) n) = firstn (Z.to_nat n) src.
Proof.
  intros Hn.
  assert (Hl : len_of (firstn (Z.to_nat n) src) = n).
  { unfold len_of in *. rewrite length_firstn. lia. }
  rewrite <- (app_nil_l (firstn (Z.to_nat n) src)).
  change (@nil Z) with (chunk_bytes (mkbuf s m 0)).
  replace n with (0 + len_of (firstn (Z.to_nat n) src)) at 2 by lia.
  apply chunk_bytes_app; [ lia | intros i Hi; lia | ].
  intros i Hi. rewrite Hl in Hi. unfold memcpy.
  destruct (Z.leb_spec 0 i); [ | lia ].
  destruct (Z.ltb_spec i (0 + n)); [ | lia ].
  cbn [andb]. rewrite nth_firstn.
  destruct (Nat.ltb_spec (Z.to_nat (i - 0)) (Z.to_nat n)); [ reflexivity | lia ].
Qed.

Lemma to_int_small (z : Z) : 0 <= z <= INT_MAX -> to_int z = z.
Proof.
  intros H. unfold to_int, UINT_MOD. pose proof INT_MAX_value as HI.
  rewrite Z.mod_small by lia.
  destruct (Z.leb_spec z INT_MAX); [ reflexivity | lia ].
Qed.

Lemma to_int_bounds (z : Z) : 0 <= z -> to_int z <= z /\ to_int z <= INT_MAX.
Proof.
  intros H. unfold to_int, UINT_MOD. pose proof INT_MAX_value as HI.
  pose proof (Z.mod_pos_bound z (2 ^ 32) ltac:(lia)) as Hr.
  assert (Hle : z mod 2 ^ 32 <= z) by (apply Z.mod_le; lia).
  destruct (Z.leb_spec (z mod 2 ^ 32) INT_MAX); lia.
Qed.

(** X8: the RFC2253 formatter truncates instead of failing.  It never
    returns -1 and keeps the capacity.  The sink is read with the
    capacity converted to [int]: when that number is not positive (a
    capacity of 0, or one whose low 32 bits are 0 or have the sign bit
    set) the result is 0 and the chunk is untouched.  With the tag
    [rfc2253], a sink, a successful rendering of a non-empty text and a
    positive converted capacity, the result is 1, the chunk reads as the
    first bytes of the rendered text, as many as the converted capacity
    allows, the length is within the capacity, and no offset from the new
    length on was stored to.  For a capacity from 1 to [INT_MAX] the
    converted capacity is the capacity: the text is cut at the
    capacity. *)
Theorem dn_formatted_truncates (BIO_new : bool)
    (X509_NAME_print_ex : X509_NAME -> Z * list Z)
    (a : X509_NAME) (format out : buffer) :
  let r := ssl_sock_get_dn_formatted BIO_new X509_NAME_print_ex a format out in
  let dlen := to_int (size out) in
  let text := snd (X509_NAME_print_ex a) in
  (fst r = 0 \/ fst r = 1) /\
  size (snd r) = size out /\
  (dlen <= 0 -> fst r = 0 /\ snd r = out) /\
  (chunk_strcmp format "rfc2253" = 0 -> BIO_new = true ->
   0 <= fst (X509_NAME_print_ex a) -> text <> [] ->
   0 <= size out -> 0 < dlen ->
   fst r = 1 /\
   data (snd r) = Z.min dlen (len_of text) /\
   data (snd r) <= size out /\
   chunk_bytes (snd r) = firstn (Z.to_nat dlen) text /\
   forall i, data (snd r) <= i -> area (snd r) i = area out i) /\
  (chunk_strcmp format "rfc2253" = 0 -> BIO_new = true ->
   0 <= fst (X509_NAME_print_ex a) -> text <> [] ->
   0 < size out <= INT_MAX ->
   fst r = 1 /\
   data (snd r) = Z.min (size out) (len_of text) /\
   chunk_bytes (snd r) = firstn (Z.to_nat (size out)) text).
Proof.
  intros r dlen text. subst r.
  assert (Hmain :
    chunk_strcmp format "rfc2253" = 0 -> BIO_new = true ->
    0 <= fst (X509_NAME_print_ex a) -> text <> [] ->
    0 <= size out -> 0 < dlen ->
    let r := ssl_sock_get_dn_formatted BIO_new X509_NAME_print_ex a format out
    in
    fst r = 1 /\
    data (snd r) = Z.min dlen (len_of text) /\
    data (snd r) <= size out /\
    chunk_bytes (snd r) = firstn (Z.to_nat dlen) text /\
    forall i, data (snd r) <= i -> area (snd r) i = area out i).
  { intros Hfmt Hbio Hrc Hne Hsz Hpos.
    unfold ssl_sock_get_dn_formatted, BIO_read. fold dlen.
    subst text. destruct (X509_NAME_print_ex a) as [rc content].
    cbn [fst snd] in *. rewrite Hfmt, Hbio. cbn [Z.eqb negb].
    destruct (Z.ltb_spec rc 0); [ lia | ].
    assert (Hlen : 0 < len_of content).
    { destruct content; [ congruence | unfold len_of; cbn [length]; lia ]. }
    destruct (to_int_bounds (size out) Hsz) as [Hle Hmax]. fold dlen in Hle, Hmax.
    set (n := Z.min dlen (len_of content)).
    assert (Hn : 0 < n <= len_of content) by (unfold n; lia).
    destruct (Z.leb_spec n 0); [ lia | ].
    destruct (Z.leb_spec n 0); [ lia | ].
    rewrite to_size_t_small by (unfold n; lia).
    cbn [fst snd size data area].
    split; [ reflexivity | ]. split; [ reflexivity | ].
    split; [ unfold n; lia | ]. split.
    - rewrite chunk_bytes_memcpy_firstn by lia.
      unfold n. destruct (Z.min_spec dlen (len_of content))
        as [[Hlt E] | [Hge E]]; rewrite E; [ reflexivity | ].
      rewrite !firstn_all2; [ reflexivity | unfold len_of in *; lia | ].
      unfold len_of. lia.
    - intros i Hi. now apply memcpy_above. }
  split; [ | split; [ | split; [ | split ] ] ].
  - unfold ssl_sock_get_dn_formatted, BIO_read.
    destruct (X509_NAME_print_ex a) as [rc content].
    destruct (chunk_strcmp format "rfc2253" =? 0); [ | now left ].
    destruct BIO_new; cbn [negb]; [ | now left ].
    destruct (rc <? 0); [ now left | ].
    destruct (Z.min (to_int (size out)) (len_of content) <=? 0) eqn:E.
    + now left.
    + rewrite E. now right.
  - unfold ssl_sock_get_dn_formatted, BIO_read.
    destruct (X509_NAME_print_ex a) as [rc content].
    destruct (chunk_strcmp format "rfc2253" =? 0); [ | reflexivity ].
    destruct BIO_new; cbn [negb]; [ | reflexivity ].
    destruct (rc <? 0); [ reflexivity | ].
    destruct (Z.min (to_int (size out)) (len_of content) <=? 0) eqn:E.
    + reflexivity.
    + rewrite E. reflexivity.
  - intros Hneg. unfold ssl_sock_get_dn_formatted, BIO_read. fold dlen.
    destruct (X509_NAME_print_ex a) as [rc content].
    destruct (chunk_strcmp format "rfc2253" =? 0); [ | now split ].
    destruct BIO_new; cbn [negb]; [ | now split ].
    destruct (rc <? 0); [ now split | ].
    destruct (Z.leb_spec (Z.min dlen (len_of content)) 0); [ | lia ].
    cbn [fst snd]. split; [ reflexivity | now destruct out ].
  - exact Hmain.
  - intros Hfmt Hbio Hrc Hne Hsz.
    assert (Hd : dlen = size out) by (apply to_int_small; lia).
    destruct Hmain as (H1 & H2 & _ & H4 & _); try assumption; try lia.
    rewrite Hd in H2, H4. now repeat split.
Qed.

Lemma dn_formatted_truncates_witness :
  outcome (ssl_sock_get_dn_formatted true
             (fun _ => (0, bytes_of_string "CN=c,O=b,CN=a")) dn_abc
             (chunk_of_string "rfc2253") (empty_buffer 4))
  = (1, bytes_of_string "CN=c") /\
  fst (ssl_sock_get_dn_formatted true
         (fun _ => (0, bytes_of_string "CN=c,O=b,CN=a")) dn_abc
         (chunk_of_string "rfc2253") (empty_buffer (2 ^ 32))) = 0.
Proof.
  destruct (dn_formatted_truncates true
              (fun _ => (0, bytes_of_string "CN=c,O=b,CN=a")) dn_abc
              (chunk_of_string "rfc2253") (empty_buffer 4))
    as (_ & _ & _ & _ & Htr).
  destruct (dn_formatted_truncates true
              (fun _ => (0, bytes_of_string "CN=c,O=b,CN=a")) dn_abc
              (chunk_of_string "rfc2253") (empty_buffer (2 ^ 32)))
    as (_ & _ & Hzero & _).
  split.
  - destruct Htr as (Hr & _ & Hb).
    + reflexivity.
    + reflexivity.
    + vm_compute; congruence.
    + vm_compute; congruence.
    + vm_compute; split; congruence.
    + unfold outcome. apply (f_equal2 pair); [ exact Hr | exact Hb ].
  - apply Hzero. vm_compute; congruence.
Defined.

(** ** Peer certificate resolver *)

(** X9: the caller of the resolver always receives an owned reference.
    The result is NULL exactly when the session has no peer certificate
    and nothing in the slot of the stored client certificate, and then
    no count changes.  The peer certificate is preferred to the stored
    one.  Whichever of the two is returned, its reference count is one
    more than before the call and every other count is as before. *)
Theorem peer_certificate_owned (idx : Z) (ssl : SSL) (refs : Z -> Z) :
  let r := ssl_sock_get_peer_certificate idx ssl refs in
  (fst r = None <->
   ssl_peer_cert ssl = None /\ ssl_ex_data ssl idx = None) /\
  (fst r = None -> forall h, snd r h = refs h) /\
  (forall c, ssl_peer_cert ssl = Some c -> fst r = Some c) /\
  (forall c, fst r = Some c ->
     (ssl_peer_cert ssl = Some c \/
      (ssl_peer_cert ssl = None /\ ssl_ex_data ssl idx = Some c)) /\
     snd r c = refs c + 1 /\
     forall h, h <> c -> snd r h = refs h).
Proof.
  intros r. subst r.
  unfold ssl_sock_get_peer_certificate, SSL_get_peer_certificate,
    SSL_get_ex_data.
  destruct (ssl_peer_cert ssl) as [p | ];
    [ | destruct (ssl_ex_data ssl idx) as [e | ] ]; cbn [fst snd].
  - split; [ split; [ discriminate | intros [H _]; discriminate H ] | ].
    split; [ discriminate | ]. split; [ intros c H; exact H | ].
    intros c H. injection H as <-.
    split; [ now left | ]. unfold X509_up_ref.
    split; [ now rewrite Z.eqb_refl | ].
    intros h Hh. destruct (Z.eqb_spec h p); [ contradiction | reflexivity ].
  - split; [ split; [ discriminate | intros [_ H]; discriminate H ] | ].
    split; [ discriminate | ]. split; [ discriminate | ].
    intros c H. injection H as <-.
    split; [ right; now split | ]. unfold X509_up_ref.
    split; [ now rewrite Z.eqb_refl | ].
    intros h Hh. destruct (Z.eqb_spec h e); [ contradiction | reflexivity ].
  - split; [ split; [ now split | reflexivity ] | ].
    split; [ reflexivity | ]. split; discriminate.
Qed.

Lemma peer_certificate_owned_witness :
  let ssl := mkssl None (fun idx => if idx =? 3 then Some 7 else None) in
  let r := ssl_sock_get_peer_certificate 3 ssl (fun _ => 1) in
  fst r = Some 7 /\ snd r 7 = 2.
Proof.
  intros ssl r.
  destruct (peer_certificate_owned 3 ssl (fun _ => 1)) as (_ & _ & _ & Hown).
  destruct (Hown 7 eq_refl) as (_ & Hcount & _).
  split; [ reflexivity | exact Hcount ].
Defined.

(** ** The packed version ordinal *)

Lemma land_mul_pow2_low (hi lo k : Z) :
  0 <= k -> 0 <= lo < 2 ^ k -> Z.land (hi * 2 ^ k) lo = 0.
Proof.
  intros Hk Hlo. apply Z.bits_inj'. intros n Hn.
  rewrite Z.land_spec, Z.bits_0, <- Z.shiftl_mul_pow2 by exact Hk.
  destruct (Z_lt_le_dec n k) as [Hnk | Hnk].
  - now rewrite Z.shiftl_spec_low.
  - assert (Hb : Z.testbit lo n = false).
    { destruct (Z.eq_dec lo 0) as [-> | Hnz]; [ apply Z.bits_0 | ].
      apply Z.bits_above_log2; [ lia | ].
      assert (Z.log2 lo < k) by (apply Z.log2_lt_pow2; lia). lia. }
    rewrite Hb. apply andb_false_r.
Qed.

Lemma lor_mul_pow2_add (hi lo k : Z) :
  0 <= k -> 0 <= lo < 2 ^ k -> Z.lor (hi * 2 ^ k) lo = hi * 2 ^ k + lo.
Proof.
  intros Hk Hlo.
  pose proof (land_mul_pow2_low hi lo k Hk Hlo) as Hd.
  rewrite <- Z.lxor_lor by exact Hd. symmetry.
  now apply Z.add_nocarry_lxor.
Qed.

(** The packing is a sum of the masked fields, each at its position. *)
Lemma numversion_sum (M m f p s : Z) :
  numversion M m f p s
  = (M mod 16) * 2 ^ 28 + (m mod 256) * 2 ^ 20 + (f mod 256) * 2 ^ 12
    + (p mod 256) * 2 ^ 4 + s mod 16.
Proof.
  unfold numversion.
  change 0xf with (Z.ones 4). change 0xff with (Z.ones 8).
  rewrite !Z.land_ones, !Z.shiftl_mul_pow2 by lia.
  change (2 ^ 4) with 16. change (2 ^ 8) with 256.
  pose proof (Z.mod_pos_bound M 16 ltac:(lia)) as HM.
  pose proof (Z.mod_pos_bound m 256 ltac:(lia)) as Hm.
  pose proof (Z.mod_pos_bound f 256 ltac:(lia)) as Hf.
  pose proof (Z.mod_pos_bound p 256 ltac:(lia)) as Hp.
  pose proof (Z.mod_pos_bound s 16 ltac:(lia)) as Hs.
  set (M' := M mod 16) in *. set (m' := m mod 256) in *.
  set (f' := f mod 256) in *. set (p' := p mod 256) in *.
  set (s' := s mod 16) in *.
  rewrite (lor_mul_pow2_add M' (m' * 2 ^ 20) 28) by lia.
  replace (M' * 2 ^ 28 + m' * 2 ^ 20) with ((M' * 256 + m') * 2 ^ 20) by lia.
  rewrite (lor_mul_pow2_add _ (f' * 2 ^ 12) 20) by lia.
  replace ((M' * 256 + m') * 2 ^ 20 + f' * 2 ^ 12)
    with ((M' * 65536 + m' * 256 + f') * 2 ^ 12) by lia.
  rewrite (lor_mul_pow2_add _ (p' * 16) 12) by lia.
  replace ((M' * 65536 + m' * 256 + f') * 2 ^ 12 + p' * 16)
    with ((M' * 16777216 + m' * 65536 + f' * 256 + p') * 2 ^ 4) by lia.
  rewrite (lor_mul_pow2_add _ s' 4) by lia.
  lia.
Qed.

Lemma field_extract (hi x lo b w : Z) :
  0 < b -> 0 <= lo < b -> 0 <= x < w ->
  ((hi * w + x) * b + lo) / b mod w = x.
Proof.
  intros Hb Hlo Hx.
  replace (((hi * w + x) * b + lo) / b) with (hi * w + x)
    by (apply Z.div_unique with (r := lo); lia).
  symmetry. apply Z.mod_unique with (q := hi); lia.
Qed.

(** X10: the packed ordinal and its layout.  For all field values the
    packing fits 32 bits and each field reads back as the value given,
    masked to its width (4, 8, 8, 8 and 4 bits). *)
Theorem numversion_layout (M m f p s : Z) :
  let n := numversion M m f p s in
  0 <= n < 2 ^ 32 /\
  ver_major n = Z.land M 0xf /\
  ver_minor n = Z.land m 0xff /\
  ver_fix n = Z.land f 0xff /\
  ver_patch n = Z.land p 0xff /\
  ver_status n = Z.land s 0xf.
Proof.
  intros n. subst n. rewrite numversion_sum.
  unfold ver_major, ver_minor, ver_fix, ver_patch, ver_status.
  change 0xf with (Z.ones 4). change 0xff with (Z.ones 8).
  rewrite !Z.land_ones, !Z.shiftr_div_pow2 by lia.
  change (2 ^ 4) with 16. change (2 ^ 8) with 256.
  change (2 ^ 28) with 268435456. change (2 ^ 20) with 1048576.
  change (2 ^ 12) with 4096. change (2 ^ 32) with 4294967296.
  pose proof (Z.mod_pos_bound M 16 ltac:(lia)) as HM.
  pose proof (Z.mod_pos_bound m 256 ltac:(lia)) as Hm.
  pose proof (Z.mod_pos_bound f 256 ltac:(lia)) as Hf.
  pose proof (Z.mod_pos_bound p 256 ltac:(lia)) as Hp.
  pose proof (Z.mod_pos_bound s 16 ltac:(lia)) as Hs.
  set (M' := M mod 16) in *. set (m' := m mod 256) in *.
  set (f' := f mod 256) in *. set (p' := p mod 256) in *.
  set (s' := s mod 16) in *.
  set (N := M' * 268435456 + m' * 1048576 + f' * 4096 + p' * 16 + s').
  split; [ unfold N; lia | ].
  split; [ | split; [ | split; [ | split ] ] ].
  - replace N with ((0 * 16 + M') * 268435456
                    + (m' * 1048576 + f' * 4096 + p' * 16 + s'))
      by (unfold N; lia).
    apply field_extract; lia.
  - replace N with ((M' * 256 + m') * 1048576 + (f' * 4096 + p' * 16 + s'))
      by (unfold N; lia).
    apply field_extract; lia.
  - replace N with (((M' * 256 + m') * 256 + f') * 4096 + (p' * 16 + s'))
      by (unfold N; lia).
    apply field_extract; lia.
  - replace N with (((M' * 65536 + m' * 256 + f') * 256 + p') * 16 + s')
      by (unfold N; lia).
    apply field_extract; lia.
  - symmetry.
    apply Z.mod_unique
      with (q := M' * 16777216 + m' * 65536 + f' * 256 + p');
      unfold N; lia.
Qed.

(** X11: numeric comparison of packed ordinals is the lexicographic
    comparison of (major, minor, fix, patch, status), for fields within
    their widths.  In particular, for one major.minor.fix, a development
    version is below every beta, a beta is below the release, and the
    release is below its lettered patch releases. *)
Theorem numversion_order (M1 m1 f1 p1 s1 M2 m2 f2 p2 s2 : Z) :
  0 <= M1 <= 0xf -> 0 <= m1 <= 0xff -> 0 <= f1 <= 0xff ->
  0 <= p1 <= 0xff -> 0 <= s1 <= 0xf ->
  0 <= M2 <= 0xf -> 0 <= m2 <= 0xff -> 0 <= f2 <= 0xff ->
  0 <= p2 <= 0xff -> 0 <= s2 <= 0xf ->
  (numversion M1 m1 f1 p1 s1 < numversion M2 m2 f2 p2 s2
   <-> version_lt (M1, m1, f1, p1, s1) (M2, m2, f2, p2, s2)).
Proof.
  intros. rewrite !numversion_sum. unfold version_lt.
  rewrite !Z.mod_small by lia.
  change (2 ^ 28) with 268435456. change (2 ^ 20) with 1048576.
  change (2 ^ 12) with 4096. change (2 ^ 4) with 16.
  lia.
Qed.

Lemma numversion_order_witness :
  numversion 3 0 0 0 14 < numversion 3 0 0 0 0xf /\
  numversion 3 0 0 0 0xf < numversion 3 0 0 1 0xf /\
  numversion 1 1 1 26 0xf < numversion 3 0 0 0 0.
Proof.
  split; [ | split ].
  - apply (numversion_order 3 0 0 0 14 3 0 0 0 0xf); try lia.
    unfold version_lt. lia.
  - apply (numversion_order 3 0 0 0 0xf 3 0 0 1 0xf); try lia.
    unfold version_lt. lia.
  - apply (numversion_order 1 1 1 26 0xf 3 0 0 0 0); try lia.
    unfold version_lt. lia.
Defined.

(** ** The version parser on all inputs *)

Lemma numversion_range (M m f p s : Z) : 0 <= numversion M m f p s < 2 ^ 32.
Proof.
  rewrite numversion_sum.
  pose proof (Z.mod_pos_bound M 16 ltac:(lia)).
  pose proof (Z.mod_pos_bound m 256 ltac:(lia)).
  pose proof (Z.mod_pos_bound f 256 ltac:(lia)).
  pose proof (Z.mod_pos_bound p 256 ltac:(lia)).
  pose proof (Z.mod_pos_bound s 16 ltac:(lia)).
  change (2 ^ 28) with 268435456. change (2 ^ 20) with 1048576.
  change (2 ^ 12) with 4096. change (2 ^ 4) with 16.
  change (2 ^ 32) with 4294967296. lia.
Qed.

(** X12: whatever the string, the parser returns a value that fits an
    unsigned 32-bit integer; the NULL pointer and the empty string give
    0. *)
Theorem version_parser_range (version : option string) :
  0 <= openssl_version_parser version < 2 ^ 32 /\
  openssl_version_parser None = 0 /\
  openssl_version_parser (Some EmptyString) = 0.
Proof.
  split; [ | split; reflexivity ].
  assert (H0 : 0 <= 0 < 2 ^ 32) by (split; [ lia | reflexivity ]).
  unfold openssl_version_parser.
  destruct version as [p | ]; [ | exact H0 ].
  destruct (peek p =? 0); [ exact H0 | ].
  destruct (strtol p) as [v1 e1].
  destruct (negb (peek e1 =? 46) || (0xf <? to_uint v1)); [ exact H0 | ].
  destruct (strtol (advance 1 e1)) as [v2 e2].
  destruct (negb (peek e2 =? 46) || (0xff <? to_uint v2)); [ exact H0 | ].
  destruct (strtol (advance 1 e2)) as [v3 e3].
  destruct (0xff <? to_uint v3); [ exact H0 | ].
  destruct (peek e3 =? 0); [ apply numversion_range | ].
  destruct (peek e3 =? 45); [ | apply numversion_range ].
  destruct (starts_with_beta (advance 1 e3)); [ | apply numversion_range ].
  destruct (strtol (advance 4 (advance 1 e3))) as [v4 e4].
  destruct (14 <? to_uint v4); [ exact H0 | apply numversion_range ].
Qed.

Lemma skip_space_dots (p : string) :
  (count_dots (skip_space p) <= count_dots p)%nat.
Proof.
  induction p as [ | c r IH ]; cbn [skip_space count_dots]; [ lia | ].
  destruct (isspace (char_code c)); cbn [count_dots];
    destruct (char_code c =? 46); lia.
Qed.

Lemma advance_1_dots (p : string) :
  (count_dots (advance 1 p) <= count_dots p)%nat.
Proof.
  destruct p as [ | c r ]; cbn [advance count_dots]; [ lia | ].
  destruct (char_code c =? 46); lia.
Qed.

Lemma strtol_digits_dots (p : string) :
  forall acc, (count_dots (snd (strtol_digits p acc)) <= count_dots p)%nat.
Proof.
  induction p as [ | c r IH ]; intros acc; cbn [strtol_digits snd count_dots];
    [ lia | ].
  destruct (isdigit (char_code c)); cbn [snd count_dots].
  - specialize (IH (acc * 10 + (char_code c - 48))).
    destruct (char_code c =? 46); lia.
  - lia.
Qed.

(** [strtol] leaves its end pointer inside the string it was given. *)
Lemma strtol_dots (p : string) :
  (count_dots (snd (strtol p)) <= count_dots p)%nat.
Proof.
  unfold strtol.
  pose proof (skip_space_dots p) as Hs.
  pose proof (advance_1_dots (skip_space p)) as Ha.
  assert (Hq : forall q, (count_dots q <= count_dots p)%nat ->
    (count_dots (snd (if isdigit (peek q)
                      then let '(v, e) := strtol_digits q 0%Z in
                           (clamp_long v, e)
                      else (0%Z, p))) <= count_dots p)%nat).
  { intros q Hle. destruct (isdigit (peek q)); [ | cbn [snd]; lia ].
    pose proof (strtol_digits_dots q 0) as Hd.
    destruct (strtol_digits q 0) as [v e]. cbn [snd] in *. lia. }
  assert (Hq' : forall q, (count_dots q <= count_dots p)%nat ->
    (count_dots (snd (if isdigit (peek q)
                      then let '(v, e) := strtol_digits q 0%Z in
                           (clamp_long (- v)%Z, e)
                      else (0%Z, p))) <= count_dots p)%nat).
  { intros q Hle. destruct (isdigit (peek q)); [ | cbn [snd]; lia ].
    pose proof (strtol_digits_dots q 0) as Hd.
    destruct (strtol_digits q 0) as [v e]. cbn [snd] in *. lia. }
  destruct (peek (skip_space p) =? 45); [ apply Hq'; lia | ].
  destruct (peek (skip_space p) =? 43); apply Hq; lia.
Qed.

Lemma peek_dot_dots (e : string) :
  peek e = 46 -> count_dots e = S (count_dots (advance 1 e)).
Proof.
  destruct e as [ | c r ]; cbn [peek advance count_dots].
  - discriminate.
  - intros H. now rewrite H.
Qed.

(** X13: a version string with fewer than two dots is rejected: the
    parser returns 0. *)
Theorem version_parser_needs_two_dots (version : string) :
  (count_dots version < 2)%nat ->
  openssl_version_parser (Some version) = 0.
Proof.
  intros Hdots. unfold openssl_version_parser.
  destruct (peek version =? 0); [ reflexivity | ].
  pose proof (strtol_dots version) as H1.
  destruct (strtol version) as [v1 e1]. cbn [snd] in H1.
  destruct (Z.eqb_spec (peek e1) 46) as [E1 | N1]; [ | reflexivity ].
  cbn [negb orb].
  destruct (0xf <? to_uint v1); [ reflexivity | ].
  pose proof (peek_dot_dots e1 E1) as D1.
  pose proof (strtol_dots (advance 1 e1)) as H2.
  destruct (strtol (advance 1 e1)) as [v2 e2]. cbn [snd] in H2.
  destruct (Z.eqb_spec (peek e2) 46) as [E2 | N2]; [ | reflexivity ].
  pose proof (peek_dot_dots e2 E2) as D2. lia.
Qed.

Lemma version_parser_needs_two_dots_witness :
  openssl_version_parser (Some "1.10"%string) = 0.
Proof.
  apply (version_parser_needs_two_dots "1.10"). vm_compute. lia.
Defined.

(** ** The version parser on well-formed version strings *)

Lemma isdigit_code (c : Z) : isdigit c = true -> 48 <= c <= 57.
Proof. unfold isdigit. intros H. apply andb_prop in H. lia. Qed.

Lemma strtol_digits_app (s rest : string) :
  all_digits s = true -> isdigit (peek rest) = false ->
  forall acc,
  strtol_digits (s ++ rest) acc = (decimal_value s acc, rest).
Proof.
  intros Hs Hrest. induction s as [ | c r IH ]; intros acc.
  - cbn [append decimal_value].
    destruct rest as [ | c r ]; [ reflexivity | ].
    cbn [strtol_digits]. cbn [peek] in Hrest. now rewrite Hrest.
  - cbn [all_digits] in Hs. apply andb_prop in Hs. destruct Hs as [Hc Hr].
    cbn [append strtol_digits decimal_value]. rewrite Hc. now apply IH.
Qed.

Lemma decimal_value_mono (s : string) :
  all_digits s = true -> forall acc, 0 <= acc -> acc <= decimal_value s acc.
Proof.
  induction s as [ | c r IH ]; intros Hs acc Hacc; cbn [decimal_value];
    [ lia | ].
  cbn [all_digits] in Hs. apply andb_prop in Hs. destruct Hs as [Hc Hr].
  apply isdigit_code in Hc.
  specialize (IH Hr (acc * 10 + (char_code c - 48))). lia.
Qed.

Lemma peek_numeral (s rest : string) :
  numeral s -> peek (s ++ rest) = peek s /\ 48 <= peek s <= 57.
Proof.
  intros [Hne Hs]. destruct s as [ | c r ]; [ congruence | ].
  cbn [append peek]. split; [ reflexivity | ].
  cbn [all_digits] in Hs. apply andb_prop in Hs.
  now apply isdigit_code.
Qed.

(** [strtol] on a numeral followed by something that is not a digit
    returns the value of the numeral and stops right after it. *)
Lemma strtol_numeral (s rest : string) :
  numeral s -> isdigit (peek rest) = false ->
  decimal_value s 0 <= LONG_MAX ->
  strtol (s ++ rest) = (decimal_value s 0, rest).
Proof.
  intros Hn Hrest Hmax.
  destruct (peek_numeral s rest Hn) as [Hpk Hrange].
  pose proof Hn as [Hne Hs].
  assert (Hsk : skip_space (s ++ rest) = (s ++ rest)%string).
  { destruct s as [ | c r ]; [ congruence | ].
    cbn [append skip_space]. cbn [peek] in Hrange.
    unfold isspace.
    destruct (Z.eqb_spec (char_code c) 32); [ lia | ].
    destruct (Z.leb_spec 9 (char_code c)); [ | lia ].
    destruct (Z.leb_spec (char_code c) 13); [ lia | reflexivity ]. }
  unfold strtol. rewrite Hsk, Hpk.
  destruct (Z.eqb_spec (peek s) 45); [ lia | ].
  destruct (Z.eqb_spec (peek s) 43); [ lia | ].
  rewrite Hpk.
  assert (Hd : isdigit (peek s) = true).
  { unfold isdigit. destruct (Z.leb_spec 48 (peek s)); [ | lia ].
    destruct (Z.leb_spec (peek s) 57); [ reflexivity | lia ]. }
  rewrite Hd, (strtol_digits_app s rest Hs Hrest 0).
  pose proof (decimal_value_mono s Hs 0 (Z.le_refl 0)) as Hnn.
  unfold clamp_long, LONG_MIN. f_equal. unfold LONG_MAX in *. lia.
Qed.

Lemma to_uint_small (z : Z) : 0 <= z <= 0xff -> to_uint z = z.
Proof.
  intros H. unfold to_uint, UINT_MOD. apply Z.mod_small. lia.
Qed.

(** The three numbers of a version string: after them the parser goes on
    with what follows, knowing major, minor and fix. *)
Lemma version_parser_numbers (sM sm sf rest : string) :
  numeral sM -> numeral sm -> numeral sf ->
  decimal_value sM 0 <= 0xf ->
  decimal_value sm 0 <= 0xff ->
  decimal_value sf 0 <= 0xff ->
  isdigit (peek rest) = false ->
  let major := decimal_value sM 0 in
  let minor := decimal_value sm 0 in
  let fix_ := decimal_value sf 0 in
  openssl_version_parser (Some (sM ++ "." ++ sm ++ "." ++ sf ++ rest)%string)
  = if peek rest =? 0 then numversion major minor fix_ 0 0xf
    else if peek rest =? 45 then
      if starts_with_beta (advance 1 rest) then
        let '(v, e) := strtol (advance 4 (advance 1 rest)) in
        if 14 <? to_uint v then 0
        else numversion major minor fix_ 0 (to_uint v)
      else numversion major minor fix_ 0 0
    else numversion major minor fix_ (patch_letters rest 1) 0xf.
Proof.
  intros HM Hm Hf BM Bm Bf Hrest major minor fix_.
  pose proof (decimal_value_mono sM (proj2 HM) 0 (Z.le_refl 0)) as NM.
  pose proof (decimal_value_mono sm (proj2 Hm) 0 (Z.le_refl 0)) as Nm.
  pose proof (decimal_value_mono sf (proj2 Hf) 0 (Z.le_refl 0)) as Nf.
  fold major in BM, NM. fold minor in Bm, Nm. fold fix_ in Bf, Nf.
  unfold openssl_version_parser.
  destruct (peek_numeral sM ("." ++ sm ++ "." ++ sf ++ rest) HM) as [Hpk Hr].
  rewrite Hpk. destruct (Z.eqb_spec (peek sM) 0); [ lia | ].
  rewrite (strtol_numeral sM) by
    (try exact HM; try reflexivity; fold major; unfold LONG_MAX; lia).
  fold major. change (peek ("." ++ sm ++ "." ++ sf ++ rest)) with 46.
  change (46 =? 46) with true. cbn [negb orb].
  rewrite (to_uint_small major) by lia.
  destruct (Z.ltb_spec 0xf major); [ lia | ].
  change (advance 1 ("." ++ sm ++ "." ++ sf ++ rest))
    with (sm ++ "." ++ sf ++ rest)%string.
  rewrite (strtol_numeral sm) by
    (try exact Hm; try reflexivity; fold minor; unfold LONG_MAX; lia).
  fold minor. change (peek ("." ++ sf ++ rest)) with 46.
  change (46 =? 46) with true. cbn [negb orb].
  rewrite (to_uint_small minor) by lia.
  destruct (Z.ltb_spec 0xff minor); [ lia | ].
  change (advance 1 ("." ++ sf ++ rest)) with (sf ++ rest)%string.
  rewrite (strtol_numeral sf rest) by
    (try exact Hf; try exact Hrest; fold fix_; unfold LONG_MAX; lia).
  fold fix_. rewrite (to_uint_small fix_) by lia.
  destruct (Z.ltb_spec 0xff fix_); [ lia | ].
  reflexivity.
Qed.

Lemma letter_facts (c : ascii) :
  is_letter (char_code c) = true ->
  Z.land (char_code c) (Z.lnot 0x20) = toupper (char_code c) /\
  (char_code c =? 0) = false /\
  (char_code c =? 45) = false /\
  isdigit (char_code c) = false.
Proof.
  destruct c as [b0 b1 b2 b3 b4 b5 b6 b7].
  destruct b0, b1, b2, b3, b4, b5, b6, b7;
    intros H; vm_compute in H; try discriminate H;
    vm_compute; repeat split.
Qed.

(** The patch counter after the letters, as the packing sees it: its low
    8 bits are those of the counter before plus the sum of the letters. *)
Lemma patch_letters_land (L : string) :
  all_letters L = true ->
  forall p, Z.land (patch_letters L p) 0xff = Z.land (p + letters_sum L) 0xff.
Proof.
  induction L as [ | c r IH ]; intros HL p; cbn [patch_letters letters_sum].
  - now rewrite Z.add_0_r.
  - cbn [all_letters] in HL. apply andb_prop in HL. destruct HL as [Hc Hr].
    destruct (letter_facts c Hc) as (Hup & Hz & _ & _).
    rewrite Hz, Hup, (IH Hr).
    change 0xff with (Z.ones 8). rewrite !Z.land_ones by lia.
    unfold to_uint, UINT_MOD.
    rewrite (Zplus_mod ((p + (toupper (char_code c) - 65)) mod 2 ^ 32)).
    rewrite (Z.mod_mod_divide _ (2 ^ 32) (2 ^ 8))
      by (exists (2 ^ 24); reflexivity).
    rewrite <- Zplus_mod. f_equal. lia.
Qed.

Lemma numversion_patch_low (M m f p p' s : Z) :
  Z.land p 0xff = Z.land p' 0xff ->
  numversion M m f p s = numversion M m f p' s.
Proof. intros H. unfold numversion. now rewrite H. Qed.

Lemma string_app_nil_r (s : string) : (s ++ "")%string = s.
Proof.
  induction s as [ | c r IH ]; cbn [append]; [ reflexivity | now rewrite IH ].
Qed.

(** X14: releases and lettered patch releases.  For decimal numerals
    with values major <= 15, minor <= 255 and fix <= 255, the string
    major.minor.fix parses to the ordinal of these numbers with patch 0
    and status [0xf]; followed by one or more ASCII letters it parses to
    the ordinal with status [0xf] whose patch field is 1 plus the sum of
    the letters' distances from [A], case folded (kept to 8 bits by the
    packing). *)
Theorem version_parser_release (sM sm sf : string) :
  numeral sM -> numeral sm -> numeral sf ->
  decimal_value sM 0 <= 0xf ->
  decimal_value sm 0 <= 0xff ->
  decimal_value sf 0 <= 0xff ->
  let major := decimal_value sM 0 in
  let minor := decimal_value sm 0 in
  let fix_ := decimal_value sf 0 in
  openssl_version_parser (Some (sM ++ "." ++ sm ++ "." ++ sf)%string)
    = numversion major minor fix_ 0 0xf /\
  forall L : string,
    L <> EmptyString -> all_letters L = true ->
    openssl_version_parser (Some (sM ++ "." ++ sm ++ "." ++ sf ++ L)%string)
    = numversion major minor fix_ (1 + letters_sum L) 0xf.
Proof.
  intros HM Hm Hf BM Bm Bf major minor fix_. split.
  - replace (sM ++ "." ++ sm ++ "." ++ sf)%string
      with (sM ++ "." ++ sm ++ "." ++ sf ++ "")%string
      by (now rewrite string_app_nil_r).
    now rewrite (version_parser_numbers sM sm sf "" HM Hm Hf BM Bm Bf).
  - intros L Hne HL.
    destruct L as [ | c r ]; [ congruence | ].
    pose proof HL as HL'. cbn [all_letters] in HL'.
    apply andb_prop in HL'. destruct HL' as [Hc _].
    destruct (letter_facts c Hc) as (_ & Hz & Hh & Hd).
    rewrite (version_parser_numbers sM sm sf (String c r) HM Hm Hf BM Bm Bf)
      by exact Hd.
    cbn [peek]. rewrite Hz, Hh.
    apply numversion_patch_low. now apply patch_letters_land.
Qed.

Lemma version_parser_release_witness :
  openssl_version_parser (Some "0.9.8zh"%string)
  = numversion 0 9 8 (1 + (25 + 7)) 0xf.
Proof.
  assert (N0 : numeral "0") by (split; [ discriminate | reflexivity ]).
  assert (N9 : numeral "9") by (split; [ discriminate | reflexivity ]).
  assert (N8 : numeral "8") by (split; [ discriminate | reflexivity ]).
  destruct (version_parser_release "0" "9" "8" N0 N9 N8) as [_ Hl].
  - vm_compute; congruence.
  - vm_compute; congruence.
  - vm_compute; congruence.
  - apply (Hl "zh"%string); [ discriminate | reflexivity ].
Defined.

Lemma starts_with_beta_app (x : string) :
  starts_with_beta ("beta" ++ x) = true.
Proof. unfold starts_with_beta. cbn. now destruct x. Qed.

(** X15: pre-releases.  After major.minor.fix as in X14 and a hyphen,
    text that does not start with [beta] gives status 0 (development);
    [beta] followed by a numeral of value at most 14 gives that value as
    status, whatever non-digit text comes after the numeral; [beta] alone
    gives status 0; and [beta] followed by a numeral above 14 (below
    2^32) is rejected with 0.  The patch field is 0 in all of them. *)
Theorem version_parser_prerelease (sM sm sf : string) :
  numeral sM -> numeral sm -> numeral sf ->
  decimal_value sM 0 <= 0xf ->
  decimal_value sm 0 <= 0xff ->
  decimal_value sf 0 <= 0xff ->
  let major := decimal_value sM 0 in
  let minor := decimal_value sm 0 in
  let fix_ := decimal_value sf 0 in
  (forall t : string,
     String.prefix "beta" t = false ->
     openssl_version_parser (Some (sM ++ "." ++ sm ++ "." ++ sf ++ "-" ++ t)%string)
     = numversion major minor fix_ 0 0) /\
  (forall sN rest : string,
     numeral sN -> decimal_value sN 0 <= 14 ->
     isdigit (peek rest) = false ->
     openssl_version_parser
       (Some (sM ++ "." ++ sm ++ "." ++ sf ++ "-beta" ++ sN ++ rest)%string)
     = numversion major minor fix_ 0 (decimal_value sN 0)) /\
  openssl_version_parser
    (Some (sM ++ "." ++ sm ++ "." ++ sf ++ "-beta")%string)
    = numversion major minor fix_ 0 0 /\
  (forall sN rest : string,
     numeral sN -> 14 < decimal_value sN 0 < 2 ^ 32 ->
     isdigit (peek rest) = false ->
     openssl_version_parser
       (Some (sM ++ "." ++ sm ++ "." ++ sf ++ "-beta" ++ sN ++ rest)%string)
     = 0).
Proof.
  intros HM Hm Hf BM Bm Bf major minor fix_.
  split; [ | split; [ | split ] ].
  - intros t Ht.
    rewrite (version_parser_numbers sM sm sf ("-" ++ t) HM Hm Hf BM Bm Bf)
      by reflexivity.
    change (peek ("-" ++ t)) with 45. change (45 =? 0) with false.
    change (45 =? 45) with true. cbv iota.
    change (advance 1 ("-" ++ t)) with t.
    unfold starts_with_beta. now rewrite Ht.
  - intros sN rest HN BN Hrest.
    rewrite (version_parser_numbers sM sm sf ("-beta" ++ sN ++ rest)
               HM Hm Hf BM Bm Bf) by reflexivity.
    change (peek ("-beta" ++ sN ++ rest)) with 45.
    change (45 =? 0) with false. change (45 =? 45) with true. cbv iota.
    change (advance 1 ("-beta" ++ sN ++ rest))
      with ("beta" ++ sN ++ rest)%string.
    rewrite starts_with_beta_app.
    change (advance 4 ("beta" ++ sN ++ rest)) with (sN ++ rest)%string.
    pose proof (decimal_value_mono sN (proj2 HN) 0 (Z.le_refl 0)) as NN.
    rewrite (strtol_numeral sN rest HN Hrest) by (unfold LONG_MAX; lia).
    rewrite to_uint_small by lia.
    destruct (Z.ltb_spec 14 (decimal_value sN 0)); [ lia | reflexivity ].
  - rewrite (version_parser_numbers sM sm sf "-beta" HM Hm Hf BM Bm Bf)
      by reflexivity.
    reflexivity.
  - intros sN rest HN BN Hrest.
    rewrite (version_parser_numbers sM sm sf ("-beta" ++ sN ++ rest)
               HM Hm Hf BM Bm Bf) by reflexivity.
    change (peek ("-beta" ++ sN ++ rest)) with 45.
    change (45 =? 0) with false. change (45 =? 45) with true. cbv iota.
    change (advance 1 ("-beta" ++ sN ++ rest))
      with ("beta" ++ sN ++ rest)%string.
    rewrite starts_with_beta_app.
    change (advance 4 ("beta" ++ sN ++ rest)) with (sN ++ rest)%string.
    rewrite (strtol_numeral sN rest HN Hrest) by (unfold LONG_MAX; lia).
    assert (Hu : to_uint (decimal_value sN 0) = decimal_value sN 0).
    { unfold to_uint, UINT_MOD. apply Z.mod_small. lia. }
    rewrite Hu.
    destruct (Z.ltb_spec 14 (decimal_value sN 0)); [ reflexivity | lia ].
Qed.

Lemma version_parser_prerelease_witness :
  openssl_version_parser (Some "3.0.0-alpha17"%string) = numversion 3 0 0 0 0 /\
  openssl_version_parser (Some "3.0.0-beta14"%string) = numversion 3 0 0 0 14.
Proof.
  assert (N3 : numeral "3") by (split; [ discriminate | reflexivity ]).
  assert (N0 : numeral "0") by (split; [ discriminate | reflexivity ]).
  destruct (version_parser_prerelease "3" "0" "0" N3 N0 N0)
    as (Hdev & Hbeta & _).
  - vm_compute; congruence.
  - vm_compute; congruence.
  - vm_compute; congruence.
  - split.
    + apply (Hdev "alpha17"%string). reflexivity.
    + apply (Hbeta "14"%string ""%string);
        [ split; [ discriminate | reflexivity ]
        | vm_compute; congruence | reflexivity ].
Defined.

(** ** GREASE filter, continued *)

Lemma firstn_to_nat_2 (n : Z) (a b : Z) (l : list Z) :
  2 <= n ->
  firstn (Z.to_nat n) (a :: b :: l) = a :: b :: firstn (Z.to_nat (n - 2)) l.
Proof.
  intros H. replace (Z.to_nat n) with (S (S (Z.to_nat (n - 2)))) by lia.
  reflexivity.
Qed.

Lemma firstn_to_nat_1 (n : Z) (a : Z) (l : list Z) :
  1 <= n ->
  firstn (Z.to_nat n) (a :: l) = a :: firstn (Z.to_nat (n - 1)) l.
Proof.
  intros H. replace (Z.to_nat n) with (S (Z.to_nat (n - 1))) by lia.
  reflexivity.
Qed.

(** From capacity 2 on, the call appends the list-level filter of the
    bytes still to read, cut at the room that is left. *)
Lemma grease_loop_trunc (rest : list Z) :
  forall (pre : list Z) (o : buffer) (fuel : nat),
  (length rest <= fuel)%nat ->
  0 <= data o <= size o ->
  2 <= size o < SIZE_MOD ->
  exists ptr o1,
    grease_loop fuel (pre ++ rest) (len_of (pre ++ rest)) (len_of pre) o
      = Some (ptr, o1) /\
    let o' := grease_tail (pre ++ rest) (len_of (pre ++ rest)) ptr o1 in
    let app := firstn (Z.to_nat (size o - data o)) (grease_spec rest) in
    size o' = size o /\
    data o' = data o + len_of app /\
    forall i, area o' i = memcpy (area o) (data o) app (len_of app) i.
Proof.
  pose proof SIZE_MOD_value as HS.
  induction rest as [ | a | a b rest IH ] using list_pair_ind;
    intros pre o fuel Hfuel Hd Hsz.
  - exists (len_of pre), o. rewrite app_nil_r.
    assert (Hrun : grease_loop fuel pre (len_of pre) (len_of pre) o
                   = Some (len_of pre, o)).
    { destruct fuel; cbn [grease_loop];
        destruct (Z.ltb_spec (len_of pre) (len_of pre - 1)); (lia || reflexivity). }
    split; [ exact Hrun | ]. cbv zeta. unfold grease_tail.
    rewrite Z.sub_diag. change (0 <? 0) with false. rewrite andb_false_r.
    cbn [grease_spec]. rewrite firstn_nil. change (len_of (@nil Z)) with 0.
    split; [ reflexivity | ]. split; [ lia | ].
    intros i. symmetry. apply memcpy_nil.
  - exists (len_of pre), o.
    assert (Hlen : len_of (pre ++ [a]) = len_of pre + 1)
      by (now rewrite len_of_app).
    assert (Hrun : grease_loop fuel (pre ++ [a]) (len_of (pre ++ [a]))
                     (len_of pre) o = Some (len_of pre, o)).
    { rewrite Hlen.
      destruct fuel; cbn [grease_loop];
        destruct (Z.ltb_spec (len_of pre) (len_of pre + 1 - 1));
        (lia || reflexivity). }
    split; [ exact Hrun | ]. cbv zeta. unfold grease_tail.
    cbn [grease_spec]. rewrite Hlen, input_at_middle.
    rewrite size_sub_small by lia.
    destruct (Z.ltb_spec 0 (size o - data o)) as [Hroom | Hfull].
    + destruct (Z.ltb_spec 0 (len_of pre + 1 - len_of pre)); [ | lia ].
      rewrite size_add_small by lia.
      rewrite firstn_to_nat_1, firstn_nil by lia.
      change (len_of [a]) with 1. cbn [andb size data area].
      split; [ reflexivity | ]. split; [ reflexivity | ].
      intros i. apply store_memcpy.
    + replace (size o - data o) with 0 by lia.
      change (firstn (Z.to_nat 0) [a]) with (@nil Z).
      change (len_of (@nil Z)) with 0. cbn [andb].
      split; [ reflexivity | ]. split; [ lia | ].
      intros i. symmetry. apply memcpy_nil.
  - destruct fuel as [ | fuel ]; [ cbn [length] in Hfuel; lia | ].
    cbn [length] in Hfuel.
    assert (Hlen : len_of (pre ++ a :: b :: rest) = len_of pre + 2 + len_of rest).
    { rewrite len_of_app. unfold len_of. cbn [length]. lia. }
    pose proof (len_of_nonneg rest) as Hnn.
    assert (Hpre2 : pre ++ a :: b :: rest = (pre ++ [a; b]) ++ rest)
      by (now rewrite <- app_assoc).
    assert (Hptr2 : len_of pre + 2 = len_of (pre ++ [a; b]))
      by (now rewrite len_of_app).
    cbn [grease_loop].
    destruct (Z.ltb_spec (len_of pre) (len_of (pre ++ a :: b :: rest) - 1));
      [ | lia ].
    rewrite input_at_middle, input_at_middle_next, skipn_middle.
    cbn [grease_spec].
    destruct ((a =? b) && (Z.land a 0x0f =? 0x0a)) eqn:E.
    + assert (E' : negb (a =? b) || negb (Z.land a 0x0f =? 0x0a) = false).
      { apply andb_prop in E. destruct E as [E1 E2]. now rewrite E1, E2. }
      rewrite E'. rewrite Hpre2, Hptr2.
      apply (IH (pre ++ [a; b]) o fuel); lia.
    + assert (E' : negb (a =? b) || negb (Z.land a 0x0f =? 0x0a) = true).
      { rewrite <- negb_andb. now rewrite E. }
      rewrite E'. rewrite size_sub_small by lia.
      destruct (Z.leb_spec (data o) (size o - 2)) as [Hroom | Hfull].
      * rewrite size_add_small by lia.
        rewrite firstn_to_nat_2 by lia.
        rewrite Hpre2, Hptr2.
        destruct (IH (pre ++ [a; b])
                    (mkbuf (size o)
                           (memcpy (area o) (data o) (a :: b :: rest) 2)
                           (data o + 2)) fuel)
          as (ptr & o1 & Hrun & Hs & Hdt & Ha);
          cbn [size data area]; try lia.
        exists ptr, o1. split; [ exact Hrun | ]. cbv zeta.
        cbn [size data area] in Hs, Hdt, Ha.
        replace (size o - (data o + 2)) with (size o - data o - 2)
          in Hdt, Ha by lia.
        set (app := firstn (Z.to_nat (size o - data o - 2)) (grease_spec rest))
          in *.
        assert (Hl2 : len_of (a :: b :: app) = 2 + len_of app).
        { unfold len_of. cbn [length]. lia. }
        split; [ exact Hs | ]. split; [ lia | ].
        intros i. rewrite Ha.
        rewrite (memcpy_ext _ (memcpy (area o) (data o) [a; b] (len_of [a; b])))
          by (intros j; apply memcpy_first_two).
        change (data o + 2) with (data o + len_of [a; b]).
        rewrite memcpy_app. reflexivity.
      * exists (len_of pre), o. split; [ reflexivity | ]. cbv zeta.
        unfold grease_tail. rewrite input_at_middle.
        rewrite size_sub_small by lia.
        destruct (Z.ltb_spec 0 (len_of (pre ++ a :: b :: rest) - len_of pre));
          [ | lia ].
        destruct (Z.ltb_spec 0 (size o - data o)) as [Hone | Hnone].
        -- replace (size o - data o) with 1 by lia.
           change (firstn (Z.to_nat 1) (a :: b :: grease_spec rest)) with [a].
           change (len_of [a]) with 1.
           rewrite size_add_small by lia. cbn [andb size data area].
           split; [ reflexivity | ]. split; [ reflexivity | ].
           intros i. apply store_memcpy.
        -- replace (size o - data o) with 0 by lia.
           change (firstn (Z.to_nat 0) (a :: b :: grease_spec rest))
             with (@nil Z).
           change (len_of (@nil Z)) with 0. cbn [andb].
           split; [ reflexivity | ]. split; [ lia | ].
           intros i. symmetry. apply memcpy_nil.
Qed.

(** X16: from capacity 2 on the filter truncates safely.  For every
    input and every chunk with [length <= capacity] and capacity at
    least 2, the call returns, keeps the capacity and [length <=
    capacity], stores only at offsets from the old length up to the new
    one, and the chunk reads as before followed by the list-level filter
    of the input cut at the room that was left; the length grows by at
    most the length of the input. *)
Theorem grease_truncates (input : list Z) (out : buffer) :
  buffer_ok out -> 2 <= size out ->
  exists out',
    exclude_tls_grease input out = Some out' /\
    size out' = size out /\
    buffer_ok out' /\
    data out <= data out' <= data out + len_of input /\
    (forall i, i < data out \/ data out' <= i -> area out' i = area out i) /\
    chunk_bytes out'
    = chunk_bytes out
      ++ firstn (Z.to_nat (size out - data out)) (grease_spec input).
Proof.
  intros (Hd & Hds & Hsm) H2. unfold exclude_tls_grease.
  destruct (grease_loop_trunc input [] out (length input) (Nat.le_refl _))
    as (ptr & o1 & Hrun & Hs & Hdt & Ha); try lia.
  cbn [app] in Hrun, Hs, Hdt, Ha. change (len_of (@nil Z)) with 0 in Hrun.
  rewrite Hrun. eexists. split; [ reflexivity | ].
  set (o' := grease_tail input (len_of input) ptr o1) in *.
  set (appd := firstn (Z.to_nat (size out - data out)) (grease_spec input)) in *.
  assert (Hal : 0 <= len_of appd <= size out - data out).
  { unfold appd, len_of. pose proof (firstn_le_length
      (Z.to_nat (size out - data out)) (grease_spec input)). lia. }
  assert (Hal2 : len_of appd <= len_of input).
  { pose proof (grease_spec_length input). unfold appd, len_of in *.
    rewrite length_firstn. lia. }
  split; [ exact Hs | ].
  split; [ unfold buffer_ok; rewrite Hs, Hdt; lia | ].
  split; [ lia | ].
  split.
  - intros i Hi. rewrite Ha. unfold memcpy.
    destruct (Z.leb_spec (data out) i); cbn [andb]; [ | reflexivity ].
    destruct (Z.ltb_spec i (data out + len_of appd)); [ lia | reflexivity ].
  - apply chunk_bytes_extend; [ lia | exact Hdt | | ].
    + intros i Hi. rewrite Ha. unfold memcpy.
      destruct (Z.leb_spec (data out) i); [ lia | reflexivity ].
    + intros i Hi. rewrite Ha. unfold memcpy.
      destruct (Z.leb_spec (data out) i); [ | lia ].
      destruct (Z.ltb_spec i (data out + len_of appd)); [ | lia ].
      reflexivity.
Qed.

Lemma grease_truncates_witness :
  exists out',
    exclude_tls_grease [0x13; 0x01; 0x0a; 0x0a; 0x13; 0x02; 0x13; 0x03]
                       (mkbuf 4 zero_area 1) = Some out' /\
    chunk_bytes out' = [0; 0x13; 0x01; 0x13].
Proof.
  destruct (grease_truncates
              [0x13; 0x01; 0x0a; 0x0a; 0x13; 0x02; 0x13; 0x03]
              (mkbuf 4 zero_area 1))
    as (out' & Hrun & _ & _ & _ & _ & Hb).
  - vm_compute; repeat split; congruence.
  - vm_compute; congruence.
  - exists out'. split; [ exact Hrun | exact Hb ].
Defined.

Lemma grease_fixed_no_pair (l : list Z) :
  grease_spec l = l ->
  forall k : nat, (2 * k + 1 < length l)%nat ->
  is_grease (nth (2 * k) l 0) (nth (2 * k + 1) l 0) = false.
Proof.
  induction l as [ | a | a b l IH ] using list_pair_ind; intros Hfix k Hk.
  - cbn [length] in Hk. lia.
  - cbn [length] in Hk. lia.
  - cbn [grease_spec] in Hfix. fold (is_grease a b) in Hfix.
    destruct (is_grease a b) eqn:E.
    + pose proof (grease_spec_length l) as Hlen. rewrite Hfix in Hlen.
      unfold len_of in Hlen. cbn [length] in Hlen. lia.
    + injection Hfix as Hfix.
      destruct k as [ | k ]; [ exact E | ].
      replace (2 * S k)%nat with (S (S (2 * k))) by lia.
      replace (S (S (2 * k)) + 1)%nat with (S (S (2 * k + 1))) by lia.
      cbn [nth]. apply IH; [ exact Hfix | ].
      cbn [length] in Hk. lia.
Qed.

(** X17: nothing the filter appends is a GREASE pair.  For every input
    and every chunk with [length <= capacity], whatever the capacity, the
    chunk reads afterwards as before followed by a byte sequence none of
    whose pairs at even offsets has two equal bytes of low nibble
    [0xA]. *)
Theorem grease_output_has_no_grease (input : list Z) (out : buffer) :
  buffer_ok out -> len_of input <= INT_MAX ->
  exists out' appended,
    exclude_tls_grease input out = Some out' /\
    chunk_bytes out' = chunk_bytes out ++ appended /\
    forall k : nat, (2 * k + 1 < length appended)%nat ->
      is_grease (nth (2 * k) appended 0) (nth (2 * k + 1) appended 0) = false.
Proof.
  intros Hok Hlen.
  destruct (exclude_tls_grease_inv input out Hok Hlen)
    as (out' & Hrun & _ & _ & _ & _ & l & Hb & Hfix).
  exists out', l. split; [ exact Hrun | ]. split; [ exact Hb | ].
  now apply grease_fixed_no_pair.
Qed.

Lemma grease_output_has_no_grease_witness :
  exists out' appended,
    exclude_tls_grease [0x0a; 0x0a; 0x13; 0x01; 0x1a; 0x1a]
                       (empty_buffer 8) = Some out' /\
    chunk_bytes out' = chunk_bytes (empty_buffer 8) ++ appended.
Proof.
  destruct (grease_output_has_no_grease [0x0a; 0x0a; 0x13; 0x01; 0x1a; 0x1a]
              (empty_buffer 8)) as (out' & l & Hrun & Hb & _).
  - vm_compute; repeat split; congruence.
  - vm_compute; congruence.
  - exists out', l. split; [ exact Hrun | exact Hb ].
Defined.

Lemma pairs_grease_spec (l : list Z) : pairs_grease l -> grease_spec l = [].
Proof.
  induction l as [ | a | a b l IH ] using list_pair_ind; cbn [pairs_grease].
  - reflexivity.
  - intros [].
  - intros [Hab Hl]. cbn [grease_spec]. fold (is_grease a b).
    rewrite Hab. now apply IH.
Qed.

(** X18: what passes and what does not.  An input made of GREASE pairs
    only leaves the chunk reading as before, with the same length,
    whatever the capacity.  An input made of pairs none of which is a
    GREASE pair, with or without one more byte at the end, is copied
    verbatim after the old bytes when the chunk has room for it. *)
Theorem grease_passthrough (input : list Z) (out : buffer) :
  buffer_ok out ->
  (pairs_grease input ->
   exists out',
     exclude_tls_grease input out = Some out' /\
     data out' = data out /\ chunk_bytes out' = chunk_bytes out) /\
  (forall l t,
     input = l ++ t -> pairs_kept l -> (length t <= 1)%nat ->
     data out + len_of input <= size out ->
     exists out',
       exclude_tls_grease input out = Some out' /\
       data out' = data out + len_of input /\
       chunk_bytes out' = chunk_bytes out ++ input).
Proof.
  intros Hok. split.
  - intros Hg. pose proof (pairs_grease_spec input Hg) as Hs.
    destruct (exclude_tls_grease_spec input out Hok)
      as (out' & Hrun & _ & Hd & Hb).
    + rewrite Hs. change (len_of (@nil Z)) with 0.
      destruct Hok as (_ & H1 & _). lia.
    + exists out'. rewrite Hs in Hd, Hb.
      change (len_of (@nil Z)) with 0 in Hd. rewrite app_nil_r in Hb.
      split; [ exact Hrun | ]. split; [ lia | exact Hb ].
  - intros l t Hin Hk Ht Hroom.
    assert (Hs : grease_spec input = input).
    { destruct (pairs_kept_fixed l Hk) as [H0 H1]. subst input.
      destruct t as [ | x [ | y t ] ].
      - now rewrite app_nil_r.
      - apply H1.
      - cbn [length] in Ht. lia. }
    destruct (exclude_tls_grease_spec input out Hok)
      as (out' & Hrun & _ & Hd & Hb).
    + now rewrite Hs.
    + exists out'. rewrite Hs in Hd, Hb. now repeat split.
Qed.

Lemma grease_passthrough_witness :
  (exists out',
     exclude_tls_grease [0x0a; 0x0a; 0xfa; 0xfa] (mkbuf 1 zero_area 1)
       = Some out' /\ data out' = 1) /\
  (exists out',
     exclude_tls_grease [0x13; 0x01; 0x0a; 0x1a; 0x2a] (empty_buffer 5)
       = Some out' /\
     chunk_bytes out' = [0x13; 0x01; 0x0a; 0x1a; 0x2a]).
Proof.
  split.
  - destruct (grease_passthrough [0x0a; 0x0a; 0xfa; 0xfa]
                (mkbuf 1 zero_area 1)) as [Hg _].
    + vm_compute; repeat split; congruence.
    + destruct Hg as (out' & Hrun & Hd & _).
      * vm_compute. repeat split.
      * exists out'. split; [ exact Hrun | exact Hd ].
  - destruct (grease_passthrough [0x13; 0x01; 0x0a; 0x1a; 0x2a]
                (empty_buffer 5)) as [_ Hk].
    + vm_compute; repeat split; congruence.
    + destruct (Hk [0x13; 0x01; 0x0a; 0x1a] [0x2a]) as (out' & Hrun & _ & Hb).
      * reflexivity.
      * vm_compute. repeat split.
      * cbn [length]. lia.
      * vm_compute; congruence.
      * exists out'. split; [ exact Hrun | exact Hb ].
Defined.

(** ** Positions of the entry locator *)

(** X19: positions from the start and from the end agree.  With [n]
    entries matching the filter, position [k] for [1 <= k <= n] and
    position [k - n - 1] give the same result and chunk; a position
    whose absolute value exceeds [n], and position 0, give result 0 with
    length 0. *)
Theorem dn_entry_positions_agree (a : X509_NAME) (entry : buffer)
    (out : buffer) :
  let n := len_of (dn_matches entry a) in
  (forall k, 1 <= k <= n ->
     ssl_sock_get_dn_entry a entry (k - n - 1) out
     = ssl_sock_get_dn_entry a entry k out) /\
  (forall pos, n < Z.abs pos \/ pos = 0 ->
     ssl_sock_get_dn_entry a entry pos out = (0, set_data out 0)).
Proof.
  intros n. split.
  - intros k Hk. rewrite !dn_entry_as_selection. unfold dn_select.
    destruct (Z.ltb_spec 0 (k - n - 1)); [ lia | ].
    destruct (Z.ltb_spec (k - n - 1) 0); [ | lia ].
    destruct (Z.ltb_spec 0 k); [ | lia ].
    rewrite nth_error_rev.
    replace (Z.to_nat (- (k - n - 1) - 1)) with (Z.to_nat (n - k)) by lia.
    unfold n, len_of in *.
    destruct (Nat.ltb_spec (Z.to_nat (Z.of_nat (length (dn_matches entry a)) - k))
                (length (dn_matches entry a))); [ | lia ].
    replace (length (dn_matches entry a)
             - S (Z.to_nat (Z.of_nat (length (dn_matches entry a)) - k)))%nat
      with (Z.to_nat (k - 1)) by lia.
    reflexivity.
  - intros pos Hpos. rewrite dn_entry_as_selection. unfold dn_select.
    unfold n, len_of in Hpos.
    destruct (Z.ltb_spec 0 pos).
    + assert (Hn : nth_error (dn_matches entry a) (Z.to_nat (pos - 1)) = None)
        by (apply nth_error_None; lia).
      now rewrite Hn.
    + destruct (Z.ltb_spec pos 0); [ | reflexivity ].
      assert (Hn : nth_error (rev (dn_matches entry a))
                     (Z.to_nat (- pos - 1)) = None)
        by (apply nth_error_None; rewrite length_rev; lia).
      now rewrite Hn.
Qed.

Lemma dn_entry_positions_agree_witness :
  ssl_sock_get_dn_entry dn_abc (chunk_of_string "CN") (-2) (empty_buffer 4)
  = ssl_sock_get_dn_entry dn_abc (chunk_of_string "CN") 1 (empty_buffer 4).
Proof.
  destruct (dn_entry_positions_agree dn_abc (chunk_of_string "CN")
              (empty_buffer 4)) as [Hsym _].
  apply (Hsym 1). vm_compute. split; congruence.
Defined.

(** ** Numbers the version parser rejects *)

Lemma to_uint_below (z : Z) : 0 <= z < 2 ^ 32 -> to_uint z = z.
Proof. intros H. unfold to_uint, UINT_MOD. now apply Z.mod_small. Qed.

(** X20: out-of-range numbers are rejected.  For numerals of value below
    2^32 followed by anything that does not start with a digit, the
    parser returns 0 when the major number exceeds 15, when the major
    number is valid and the minor number exceeds 255, and when both are
    valid and the fix number exceeds 255. *)
Theorem version_parser_rejects_large (sM sm sf rest : string) :
  numeral sM -> numeral sm -> numeral sf ->
  isdigit (peek rest) = false ->
  decimal_value sM 0 < 2 ^ 32 ->
  decimal_value sm 0 < 2 ^ 32 ->
  decimal_value sf 0 < 2 ^ 32 ->
  (0xf < decimal_value sM 0 ->
   openssl_version_parser (Some (sM ++ rest)%string) = 0) /\
  (decimal_value sM 0 <= 0xf -> 0xff < decimal_value sm 0 ->
   openssl_version_parser (Some (sM ++ "." ++ sm ++ rest)%string) = 0) /\
  (decimal_value sM 0 <= 0xf -> decimal_value sm 0 <= 0xff ->
   0xff < decimal_value sf 0 ->
   openssl_version_parser (Some (sM ++ "." ++ sm ++ "." ++ sf ++ rest)%string)
   = 0).
Proof.
  intros HM Hm Hf Hrest UM Um Uf.
  pose proof (decimal_value_mono sM (proj2 HM) 0 (Z.le_refl 0)) as NM.
  pose proof (decimal_value_mono sm (proj2 Hm) 0 (Z.le_refl 0)) as Nm.
  pose proof (decimal_value_mono sf (proj2 Hf) 0 (Z.le_refl 0)) as Nf.
  assert (Hhead : forall r, (peek (sM ++ r) =? 0) = false).
  { intros r. destruct (peek_numeral sM r HM) as [Hpk Hr]. rewrite Hpk.
    destruct (Z.eqb_spec (peek sM) 0); [ lia | reflexivity ]. }
  split; [ | split ].
  - intros Hbig. unfold openssl_version_parser. rewrite Hhead.
    rewrite (strtol_numeral sM rest HM Hrest) by (unfold LONG_MAX; lia).
    rewrite to_uint_below by lia.
    destruct (Z.ltb_spec 0xf (decimal_value sM 0)); [ | lia ].
    now rewrite orb_true_r.
  - intros BM Hbig. unfold openssl_version_parser. rewrite Hhead.
    rewrite (strtol_numeral sM) by
      (try exact HM; try reflexivity; unfold LONG_MAX; lia).
    change (peek ("." ++ sm ++ rest)) with 46.
    change (46 =? 46) with true. cbn [negb orb].
    rewrite to_uint_below by lia.
    destruct (Z.ltb_spec 0xf (decimal_value sM 0)); [ lia | ].
    change (advance 1 ("." ++ sm ++ rest)) with (sm ++ rest)%string.
    rewrite (strtol_numeral sm rest Hm Hrest) by (unfold LONG_MAX; lia).
    rewrite to_uint_below by lia.
    destruct (Z.ltb_spec 0xff (decimal_value sm 0)); [ | lia ].
    now rewrite orb_true_r.
  - intros BM Bm Hbig. unfold openssl_version_parser. rewrite Hhead.
    rewrite (strtol_numeral sM) by
      (try exact HM; try reflexivity; unfold LONG_MAX; lia).
    change (peek ("." ++ sm ++ "." ++ sf ++ rest)) with 46.
    change (46 =? 46) with true. cbn [negb orb].
    rewrite to_uint_below by lia.
    destruct (Z.ltb_spec 0xf (decimal_value sM 0)); [ lia | ].
    change (advance 1 ("." ++ sm ++ "." ++ sf ++ rest))
      with (sm ++ "." ++ sf ++ rest)%string.
    rewrite (strtol_numeral sm) by
      (try exact Hm; try reflexivity; unfold LONG_MAX; lia).
    change (peek ("." ++ sf ++ rest)) with 46.
    change (46 =? 46) with true. cbn [negb orb].
    rewrite to_uint_below by lia.
    destruct (Z.ltb_spec 0xff (decimal_value sm 0)); [ lia | ].
    change (advance 1 ("." ++ sf ++ rest)) with (sf ++ rest)%string.
    rewrite (strtol_numeral sf rest Hf Hrest) by (unfold LONG_MAX; lia).
    rewrite to_uint_below by lia.
    destruct (Z.ltb_spec 0xff (decimal_value sf 0)); [ reflexivity | lia ].
Qed.

Lemma version_parser_rejects_large_witness :
  openssl_version_parser (Some "16.0.0"%string) = 0 /\
  openssl_version_parser (Some "1.0.256"%string) = 0.
Proof.
  assert (N16 : numeral "16") by (split; [ discriminate | reflexivity ]).
  assert (N1 : numeral "1") by (split; [ discriminate | reflexivity ]).
  assert (N0 : numeral "0") by (split; [ discriminate | reflexivity ]).
  assert (N256 : numeral "256") by (split; [ discriminate | reflexivity ]).
  split.
  - destruct (version_parser_rejects_large "16" "0" "0" ".0.0" N16 N0 N0
                eq_refl eq_refl eq_refl eq_refl) as (Hmaj & _).
    apply Hmaj. reflexivity.
  - destruct (version_parser_rejects_large "1" "0" "256" "" N1 N0 N256
                eq_refl eq_refl eq_refl eq_refl) as (_ & _ & Hfix).
    apply Hfix; vm_compute; congruence.
Defined.
